(** * tgres: the ingestion pipeline of [transceiver.go] and [receiver/worker.go]

    A shallow embedding of the worker, flusher hand-off, copy-request and
    stats-aggregator code, with the properties of the written specification
    stated against it.

    Conventions.
    - Go's [int64], [int] (64-bit) and [time.Duration] (an [int64] count of
      nanoseconds) are [Z] with the wrap-around of [Int64.wrap] written at
      every arithmetic operation.
    - Go's [float64] is the primitive binary64 type [float].
    - A pointer to a live data source is the key of that data source in the
      store [dss]; a snapshot ([mostlyCopy]) is a record value.
    - A [for k := range m] loop visits the keys left in [m] in an order Go
      leaves unspecified; the loops below visit them in the order of
      [elements] / [map_to_list], skip a key deleted before it is reached,
      and every statement about them is independent of that order. *)

From Stdlib Require Import ZArith Lia Floats.
From stdpp Require Import base option list gmap strings.

Local Open Scope Z_scope.

(** ** Results of Go statements that may block or panic *)

Inductive outcome (A : Type) : Type :=
  | Done (a : A)
  | Blocked
  | Panic (msg : string).
Arguments Done {A} a.
Arguments Blocked {A}.
Arguments Panic {A} msg.

Definition obind {A B} (m : outcome A) (k : A -> outcome B) : outcome B :=
  match m with
  | Done a => k a
  | Blocked => Blocked
  | Panic msg => Panic msg
  end.

Notation "x <<- m ;; k" := (obind m (fun x => k))
  (at level 100, m at next level, right associativity).

(** ** 64-bit two's complement integers *)

Module Int64.

Definition min_int : Z := - 2 ^ 63.
Definition max_int : Z := 2 ^ 63 - 1.

Definition wrap (z : Z) : Z := (z + 2 ^ 63) mod 2 ^ 64 - 2 ^ 63.

Definition in_range (z : Z) : Prop := min_int <= z <= max_int.

Definition in_rangeb (z : Z) : bool := (min_int <=? z) && (z <=? max_int).

Definition add (a b : Z) : Z := wrap (a + b).
Definition sub (a b : Z) : Z := wrap (a - b).
Definition mul (a b : Z) : Z := wrap (a * b).

(** Go's [/] on integers truncates toward zero; the divisors in this
    development are non-zero. *)
Definition quot (a b : Z) : Z := wrap (Z.quot a b).

(** Go's [%] has the sign of the dividend. *)
Definition rem (a b : Z) : Z := wrap (Z.rem a b).

End Int64.

(** ** [float64], [math] and [time] *)

Module Float64.

(** [float64(n)] for an integer [n]: the nearest binary64 value. *)
Definition of_int (z : Z) : float :=
  SF2Prim (binary_normalize prec emax z 0 false).

(** [int64(f)]: the fraction is discarded. Go leaves the result open when
    the value does not fit; amd64 yields the smallest [int64], which is
    what is written here. *)
Definition to_int64 (f : float) : Z :=
  match Prim2SF f with
  | S754_zero _ => 0
  | S754_finite s m e =>
      let mag := if 0 <=? e then Z.pos m * 2 ^ e else Z.pos m / 2 ^ (- e) in
      let z := if s then - mag else mag in
      if Int64.in_rangeb z then z else Int64.min_int
  | S754_infinity _ | S754_nan => Int64.min_int
  end.

(** [math.Min] and [math.Max], with the special cases of Go's library. *)
Definition Min (x y : float) : float :=
  if (x =? neg_infinity)%float || (y =? neg_infinity)%float then neg_infinity
  else if is_nan x || is_nan y then nan
  else if (x =? 0)%float && (x =? y)%float then
    (if get_sign x then x else y)
  else if (x <? y)%float then x else y.

Definition Max (x y : float) : float :=
  if (x =? infinity)%float || (y =? infinity)%float then infinity
  else if is_nan x || is_nan y then nan
  else if (x =? 0)%float && (x =? y)%float then
    (if get_sign x then y else x)
  else if (y <? x)%float then x else y.

End Float64.

Definition Millisecond : Z := 1000000.
Definition Second : Z := 1000000000.

(** [Duration.Seconds()], as Go's library computes it. *)
Definition Seconds (d : Z) : float :=
  let sec := Int64.quot d Second in
  let nsec := Int64.rem d Second in
  (Float64.of_int sec + Float64.of_int nsec / 1e9)%float.

(** [rand.Intn(n)] panics when [n <= 0] and otherwise returns a number of
    [[0, n)]; [draw] is the value the generator produces. *)
Definition rand_Intn (draw n : Z) : outcome Z :=
  if n <=? 0 then Panic "invalid argument to Intn" else Done (draw mod n).

(** ** Channels

    [ch_cap] is the capacity given to [make]. [ch_recv] says that the
    goroutine which loops on a receive from the channel is at that receive
    when a sender arrives; what it has been handed is [ch_taken]. *)

Record chan (A : Type) : Type := mkChan {
  ch_cap : nat;
  ch_buf : list A;
  ch_recv : bool;
  ch_taken : list A;
  ch_closed : bool
}.
Arguments mkChan {A}.
Arguments ch_cap {A}.
Arguments ch_buf {A}.
Arguments ch_recv {A}.
Arguments ch_taken {A}.
Arguments ch_closed {A}.

(** [make(chan A, n)] *)
Definition make_chan {A} (n : nat) : chan A := mkChan n [] false [] false.

(** [len(c)] *)
Definition chan_len {A} (c : chan A) : nat := length (ch_buf c).

(** [c <- v]: handed to a waiting receiver, else buffered while there is
    room, else the sender blocks. *)
Definition chan_send {A} (c : chan A) (v : A) : outcome (chan A) :=
  if ch_closed c then Panic "send on closed channel"
  else if ch_recv c then
    Done (mkChan (ch_cap c) (ch_buf c) (ch_recv c) (ch_taken c ++ [v]) false)
  else if (length (ch_buf c) <? ch_cap c)%nat then
    Done (mkChan (ch_cap c) (ch_buf c ++ [v]) (ch_recv c) (ch_taken c) false)
  else Blocked.

(** [close(c)] *)
Definition chan_close {A} (c : chan A) : outcome (chan A) :=
  if ch_closed c then Panic "close of closed channel"
  else Done (mkChan (ch_cap c) (ch_buf c) (ch_recv c) (ch_taken c) true).

(** [v, ok := <-c] on a buffered channel: the oldest element, or the zero
    value with [ok = false] once the channel is closed and drained, or the
    receiver blocks. *)
Definition chan_recv {A} (c : chan A) : outcome (option A * chan A) :=
  match ch_buf c with
  | v :: rest =>
      Done (Some v,
            mkChan (ch_cap c) rest (ch_recv c) (ch_taken c) (ch_closed c))
  | [] => if ch_closed c then Done (None, c) else Blocked
  end.

(** What the goroutine parked at [<-c] on an unbuffered channel gets: the
    first value handed over, or nil when the channel was closed without
    one; it stays blocked while neither happened. *)
Definition chan_parked_recv {A} (c : chan A) : outcome (option A) :=
  match ch_taken c with
  | v :: _ => Done (Some v)
  | [] => if ch_closed c then Done None else Blocked
  end.

(** [chs[i]] *)
Definition index {A} (chs : list A) (i : Z) : outcome A :=
  if i <? 0 then Panic "index out of range"
  else match chs !! Z.to_nat i with
       | Some c => Done c
       | None => Panic "index out of range"
       end.

(** [chs[i] = c] *)
Definition set_index {A} (chs : list A) (i : Z) (c : A) : list A :=
  <[Z.to_nat i := c]> chs.

(** [id % int64(config.Workers)] *)
Definition shard (Workers id : Z) : outcome Z :=
  if Workers =? 0 then Panic "integer divide by zero"
  else Done (Int64.rem id Workers).

(** A [for k := range m] loop over the keys [keys] that [m] had when the
    loop started; [live] reads the keys the map has now. *)
Fixpoint rangeLoop {S : Type} (live : S -> gset Z)
    (body : Z -> S -> outcome S) (keys : list Z) (s : S) : outcome S :=
  match keys with
  | [] => Done s
  | k :: ks =>
      if decide (k ∈ live s)
      then (s' <<- body k s ;; rangeLoop live body ks s')
      else rangeLoop live body ks s
  end.

(** ** Data *)

(** Modelled from the spec: the declaration of [trDataSource] is not among
    the sources. A data source has an id, a name, the instant of its last
    flush and its pending archive slots. *)
Record trDataSource : Type := mkDataSource {
  Id : Z;
  DsName : string;
  LastFlushRT : Z;
  RRAs : list float
}.

(** Modelled from the spec: [mostlyCopy] is not among the sources; it is a
    structural copy of the data source, safe to read outside the shard. *)
Definition mostlyCopy (ds : trDataSource) : trDataSource :=
  mkDataSource (Id ds) (DsName ds) (LastFlushRT ds) (RRAs ds).

(** Modelled from the spec: [clearRRAs] is not among the sources; it clears
    the rotated archive buffers of the data source. *)
Definition clearRRAs (ds : trDataSource) : trDataSource :=
  mkDataSource (Id ds) (DsName ds) (LastFlushRT ds) [].

(** [ds.LastFlushRT = now] *)
Definition set_LastFlushRT (now : Z) (ds : trDataSource) : trDataSource :=
  mkDataSource (Id ds) (DsName ds) now (RRAs ds).

(** Modelled from the spec: the three-argument [shouldBeFlushed] of
    [receiver/worker.go] is not among the sources. It is true when the data
    source holds at least [maxPoints] buffered slots or its last flush is
    older than [maxCacheDur]; below [minCacheDur] it is false. *)
Definition shouldBeFlushed_contract (now : Z) (ds : trDataSource)
    (maxPoints minCacheDur maxCacheDur : Z) : bool :=
  let age := now - LastFlushRT ds in
  if age <? minCacheDur then false
  else (maxPoints <=? Z.of_nat (length (RRAs ds))) || (maxCacheDur <? age).

(** Modelled from the spec: applying a sample is not among the sources; the
    value joins the pending slots and no error is returned. *)
Definition process_append (v : float) (ds : trDataSource)
    : option trDataSource :=
  Some (mkDataSource (Id ds) (DsName ds) (LastFlushRT ds) (RRAs ds ++ [v])).

(** [trDataPoint]; [ds] points to the live data source. *)
Record trDataPoint : Type := mkDataPoint {
  Name : string;
  TimeStamp : Z;
  Value : float;
  ds : option Z
}.

Record trStat : Type := mkStat {
  name : string;
  metric : string;
  value : float
}.

Record dsCopyRequest : Type := mkCopyRequest {
  dsId : Z;
  resp : chan trDataSource
}.

(** The fields of the global [config] that the code reads. *)
Record Config : Type := mkConfig {
  Workers : Z;
  MinCache : Z;
  MaxCache : Z;
  StatFlush : Z;
  StatsNamePrefix : string
}.

Inductive logmsg : Type :=
  | LogCopyLookup (worker id : Z)
  | LogFlushLookup (worker id : Z)
  | LogProcessError (worker : Z)
  | LogReceiverLookup (ident : string) (id : Z)
  | LogReceiverPeriodic (ident : string) (id : Z)
  | LogReceiverFlush (ident : string) (id : Z)
  | LogReceiverProcessError (ident dsname : string)
  | LogStatTimerDropped
  | LogInvalidMetric (m : string).

(** ** The periodic-flush timers *)

Module TransceiverTimer.

(** One turn of the goroutine started by [worker] in [transceiver.go]:
    the duration handed to [time.Sleep]. *)
Definition periodicFlushSleep (MinCache MaxCache draw : Z) : outcome Z :=
  let i := Int64.quot (Int64.sub MaxCache MinCache) 1000 in
  r <<- rand_Intn draw i ;;
  Done (Int64.add (Int64.mul r Millisecond) MinCache).

End TransceiverTimer.

Module ReceiverTimer.

(** One turn of [workerPeriodicFlushSignal] in [receiver/worker.go]: the
    value of [dur]. *)
Definition workerPeriodicFlushSignal (minCacheDur maxCacheDur draw : Z)
  : outcome Z :=
  let i := Int64.quot (Int64.sub maxCacheDur minCacheDur) 1000000 in
  r <<- rand_Intn draw (Int64.add i 1) ;;
  Done (Int64.add (Int64.mul r Millisecond) minCacheDur).

End ReceiverTimer.

(** ** The stats aggregator ([statWorker]) *)

Module Stats.

(** The three maps of [statWorker]. *)
Record maps : Type := mkMaps {
  counts : gmap string Z;
  gauges : gmap string float;
  timers : gmap string (list float)
}.

(** [make(map...)] three times *)
Definition empty : maps := mkMaps ∅ ∅ ∅.

(** [make([]float64, 4)]: a slice of length four, all zero. *)
Definition make_slice4 : list float := replicate 4 0%float.

(** The body of [case st, ok := <-t.stCh] for [ok = true]. *)
Definition recvStat (m : maps) (st : trStat) : maps * list logmsg :=
  if decide (metric st = "c") then
    let counts0 :=
      match counts m !! name st with
      | Some _ => counts m
      | None => <[name st := 0]> (counts m)
      end in
    let old := default 0 (counts0 !! name st) in
    (mkMaps (<[name st := Int64.add old (Float64.to_int64 (value st))]> counts0)
            (gauges m) (timers m), [])
  else if decide (metric st = "g") then
    (mkMaps (counts m) (<[name st := value st]> (gauges m)) (timers m), [])
  else if decide (metric st = "ms") then
    let timers0 :=
      match timers m !! name st with
      | Some _ => timers m
      | None => <[name st := make_slice4]> (timers m)
      end in
    let old := default [] (timers0 !! name st) in
    (mkMaps (counts m) (gauges m) (<[name st := old ++ [value st]]> timers0),
     [])
  else (m, [LogInvalidMetric (metric st)]).

(** The first loop of [flushStats], for one entry of [counts]. *)
Definition flushCount (cfg : Config) (now : Z) (e : string * Z)
    : trDataPoint :=
  let perSec := (Float64.of_int e.2 / Seconds (StatFlush cfg))%float in
  mkDataPoint (StatsNamePrefix cfg +:+ "." +:+ e.1) now perSec None.

(** The second loop, for one entry of [gauges]. *)
Definition flushGauge (cfg : Config) (now : Z) (e : string * float)
    : trDataPoint :=
  mkDataPoint (StatsNamePrefix cfg +:+ ".gauges." +:+ e.1) now e.2 None.

(** [lower], [upper] and [sum] after [for _, v := range times[1:]]. *)
Definition summary (t0 : float) (rest : list float)
    : float * float * float :=
  foldl (fun acc v =>
           let '(lower, upper, sum) := acc in
           (Float64.Min lower v, Float64.Max upper v, (sum + v)%float))
        (t0, t0, 0%float) rest.

(** The third loop, for one entry of [timers]. *)
Definition flushTimer (cfg : Config) (now : Z) (e : string * list float)
    : list trDataPoint :=
  let base := StatsNamePrefix cfg +:+ ".timers." +:+ e.1 in
  let len := Float64.of_int (Z.of_nat (length e.2)) in
  mkDataPoint (base +:+ ".count") now len None ::
  match e.2 with
  | [] => []
  | t0 :: rest =>
      let '(lower, upper, sum) := summary t0 rest in
      [ mkDataPoint (base +:+ ".lower") now lower None;
        mkDataPoint (base +:+ ".upper") now upper None;
        mkDataPoint (base +:+ ".sum") now sum None;
        mkDataPoint (base +:+ ".mean") now (sum / len)%float None ]
  end.

Definition flushCounts (cfg : Config) (now : Z) (m : maps)
    : list trDataPoint :=
  flushCount cfg now <$> map_to_list (counts m).

Definition flushGauges (cfg : Config) (now : Z) (m : maps)
    : list trDataPoint :=
  flushGauge cfg now <$> map_to_list (gauges m).

Definition flushTimers (cfg : Config) (now : Z) (m : maps)
    : list trDataPoint :=
  mjoin (flushTimer cfg now <$> map_to_list (timers m)).

(** [flushStats]: the data points queued, in order, and the maps after. *)
Definition flushStats (cfg : Config) (now : Z) (m : maps)
    : list trDataPoint * maps :=
  (flushCounts cfg now m ++ flushGauges cfg now m ++ flushTimers cfg now m,
   empty).

(** What the blocking [select] of [statWorker] picks. *)
Inductive selected : Type :=
  | FlushCh
  | StCh (st : option trStat).

Record state : Type := mkState {
  st_maps : maps;
  queued : list trDataPoint;
  st_log : list logmsg;
  returned : bool
}.

Definition init : state := mkState empty [] [] false.

(** One turn of the [for] loop of [statWorker], for the case selected. *)
Definition statWorker_iter (cfg : Config) (now : Z) (sel : selected)
    (s : state) : state :=
  match sel with
  | FlushCh =>
      let '(out, m) := flushStats cfg now (st_maps s) in
      mkState m (queued s ++ out) (st_log s) false
  | StCh None =>
      let '(out, m) := flushStats cfg now (st_maps s) in
      mkState m (queued s ++ out) (st_log s) true
  | StCh (Some st) =>
      let '(m, l) := recvStat (st_maps s) st in
      mkState m (queued s) (st_log s ++ l) false
  end.

(** [statWorker] on the sequence of cases its selects pick. *)
Fixpoint statWorker (cfg : Config) (now : Z) (sels : list selected)
    (s : state) : state :=
  match sels with
  | [] => s
  | sel :: rest =>
      let s' := statWorker_iter cfg now sel s in
      if returned s' then s' else statWorker cfg now rest s'
  end.

(** The stats of one interval, then the tick of [flushCh]. *)
Definition interval (sts : list trStat) : list selected :=
  (StCh ∘ Some <$> sts) ++ [FlushCh].

(** The values a name received as a metric of kind [kind], in order. *)
Definition observed (kind nm : string) (sts : list trStat) : list float :=
  value <$> filter (fun st => metric st = kind /\ name st = nm) sts.

(** The data points of [out] named [nm]. *)
Definition named (nm : string) (out : list trDataPoint)
    : list trDataPoint :=
  filter (fun dp => Name dp = nm) out.

End Stats.

(** ** The flush tick of [statWorker]

    The goroutine that sleeps to the next multiple of [StatFlush] and the
    receives of [statWorker] on [flushCh], as a transition system. *)

Module Tick.

(** Where the timer goroutine stands: asleep, or past [len(flushCh) == 0]
    and about to send. *)
Inductive pc : Type := Sleeping | Sending.

Record state : Type := mkState {
  flushCh : chan Z;
  timer : pc;
  wakes : nat;
  log : list logmsg;
  flushes : nat
}.

(** The ticks dropped so far: one log line each. *)
Definition dropped (s : state) : nat := length (log s).

(** [make(chan int, 1)] *)
Definition init : state := mkState (make_chan 1) Sleeping 0 [] 0.

Inductive action : Type :=
  | TimerWake
  | TimerSend
  | WorkerRecv.

(** One atomic step; [None] when the goroutine cannot move (it sleeps,
    or blocks on the channel). *)
Definition next (a : action) (s : state) : option state :=
  match a, timer s with
  | TimerWake, Sleeping =>
      if (chan_len (flushCh s) =? 0)%nat
      then Some (mkState (flushCh s) Sending (S (wakes s)) (log s)
                         (flushes s))
      else Some (mkState (flushCh s) Sleeping (S (wakes s))
                         (log s ++ [LogStatTimerDropped]) (flushes s))
  | TimerSend, Sending =>
      match chan_send (flushCh s) 1 with
      | Done c => Some (mkState c Sleeping (wakes s) (log s) (flushes s))
      | _ => None
      end
  | WorkerRecv, _ =>
      match chan_recv (flushCh s) with
      | Done (Some _, c) =>
          Some (mkState c (timer s) (wakes s) (log s) (S (flushes s)))
      | _ => None
      end
  | _, _ => None
  end.

Inductive step : state -> state -> Prop :=
  | step_next a s s' : next a s = Some s' -> step s s'.

Inductive reachable : state -> Prop :=
  | reach_init : reachable init
  | reach_step s s' : reachable s -> step s s' -> reachable s'.

(** A run of the actions, stopping at the first that cannot move. *)
Fixpoint run (acts : list action) (s : state) : option state :=
  match acts with
  | [] => Some s
  | a :: rest => match next a s with
                 | Some s' => run rest s'
                 | None => None
                 end
  end.

Definition pending (s : state) : nat := chan_len (flushCh s).

Definition in_flight (s : state) : nat :=
  match timer s with Sleeping => 0%nat | Sending => 1%nat end.

(** What every reachable state satisfies: [flushCh] is the open channel
    of capacity one nobody is parked on, at most one tick is pending or
    about to be sent, and every wake of the timer is accounted for. *)
Definition tick_inv (s : state) : Prop :=
  ch_cap (flushCh s) = 1%nat
  /\ ch_recv (flushCh s) = false
  /\ ch_closed (flushCh s) = false
  /\ (pending s + in_flight s <= 1)%nat
  /\ (flushes s + pending s + in_flight s + dropped s = wakes s)%nat.

End Tick.

(** ** The worker of [transceiver.go] *)

Module Transceiver.

Record trTransceiver : Type := mkTransceiver {
  dss : gmap Z trDataSource;
  flusherChs : list (chan trDataSource);
  dsCopyChs : list (chan dsCopyRequest);
  log : list logmsg
}.

Definition add_log (l : logmsg) (t : trTransceiver) : trTransceiver :=
  mkTransceiver (dss t) (flusherChs t) (dsCopyChs t) (log t ++ [l]).

(** The goroutine looping on a receive from [c] is at its receive. *)
Definition parked {A} (c : chan A) : chan A :=
  mkChan (ch_cap c) (ch_buf c) true (ch_taken c) (ch_closed c).

(** [startFlushers]: one unbuffered channel per flusher. *)
Definition startFlushers (cfg : Config) (t : trTransceiver)
    : trTransceiver :=
  mkTransceiver (dss t)
                (replicate (Z.to_nat (Workers cfg)) (make_chan 0))
                (dsCopyChs t) (log t).

(** [startWorkers]: the copy-request channels, of capacity 1024. *)
Definition startWorkers (cfg : Config) (t : trTransceiver) : trTransceiver :=
  mkTransceiver (dss t) (flusherChs t)
                (replicate (Z.to_nat (Workers cfg)) (make_chan 1024))
                (log t).

(** [flushDs(ds)], [p] being the pointer [ds]. *)
Definition flushDs (cfg : Config) (now : Z) (t : trTransceiver) (p : Z)
    : outcome trTransceiver :=
  match dss t !! p with
  | None => Panic "nil pointer dereference"
  | Some ds =>
      i <<- shard (Workers cfg) (Id ds) ;;
      c <<- index (flusherChs t) i ;;
      c' <<- chan_send c (mostlyCopy ds) ;;
      let ds1 := set_LastFlushRT now ds in
      let ds2 := clearRRAs ds1 in
      Done (mkTransceiver (<[p := ds2]> (dss t))
                          (set_index (flusherChs t) i c')
                          (dsCopyChs t) (log t))
  end.

(** The [case r := <-t.dsCopyChs[id]] branch of [worker]: the transceiver
    and the reply channel [r.resp] after it. *)
Definition copyBranch (id : Z) (t : trTransceiver) (r : dsCopyRequest)
    : outcome (trTransceiver * chan trDataSource) :=
  match dss t !! dsId r with
  | None => Done (add_log (LogCopyLookup id (dsId r)) t, resp r)
  | Some ds =>
      c <<- chan_send (resp r) (mostlyCopy ds) ;;
      c' <<- chan_close c ;;
      Done (t, c')
  end.

(** [requestDsCopy(id)]: the request is queued for the worker of the
    shard, that worker takes it in its copy branch, and the caller waits
    on the reply channel. *)
Definition requestDsCopy (cfg : Config) (t : trTransceiver) (id : Z)
    : outcome (option trDataSource) :=
  let req := mkCopyRequest id (parked (make_chan 0)) in
  i <<- shard (Workers cfg) id ;;
  c <<- index (dsCopyChs t) i ;;
  _ <<- chan_send c req ;;
  r <<- copyBranch i t req ;;
  chan_parked_recv r.2.

(** The local state of one worker. *)
Record wstate : Type := mkW {
  tr : trTransceiver;
  recent : gset Z
}.

Inductive selected : Type :=
  | PeriodicFlushCheck
  | WorkerCh (dp : option trDataPoint)
  | DsCopyCh (r : dsCopyRequest).

Section Worker.

(** [ds.shouldBeFlushed()] and [dp.process()] are not among the
    sources; the worker is written over any two such methods. The first
    reads the clock. *)
Variable shouldBeFlushed : Z -> trDataSource -> bool.
Variable process : trDataPoint -> trDataSource -> option trDataSource.

(** [t.flushDs(ds); delete(recent, ds.Id)] *)
Definition flushAndForget (cfg : Config) (now : Z) (p : Z)
    (d : trDataSource) (w : wstate) : outcome wstate :=
  t' <<- flushDs cfg now (tr w) p ;;
  Done (mkW t' (recent w ∖ {[Id d]})).

(** The body of [for dsId, _ := range recent]. *)
Definition flushBody (cfg : Config) (now : Z) (id : Z)
    (flushEverything : bool) (k : Z) (w : wstate) : outcome wstate :=
  match dss (tr w) !! k with
  | None => Done (mkW (add_log (LogFlushLookup id k) (tr w)) (recent w))
  | Some d =>
      if flushEverything || shouldBeFlushed now d
      then flushAndForget cfg now k d w
      else Done w
  end.

Definition flushRecent (cfg : Config) (now : Z) (id : Z)
    (flushEverything : bool) (w : wstate) : outcome wstate :=
  rangeLoop recent (flushBody cfg now id flushEverything)
            (elements (recent w)) w.

(** One turn of the [for] loop of [worker]: the state after, the reply
    channel of a copy request after, and whether the loop was left. *)
Definition worker_iter (cfg : Config) (now : Z) (id : Z)
    (sel : selected) (w : wstate)
    : outcome (wstate * option (chan trDataSource) * bool) :=
  match sel with
  | DsCopyCh r =>
      tc <<- copyBranch id (tr w) r ;;
      Done (mkW tc.1 (recent w), Some tc.2, false)
  | PeriodicFlushCheck =>
      w' <<- flushRecent cfg now id false w ;;
      Done (w', None, false)
  | WorkerCh None =>
      w' <<- flushRecent cfg now id true w ;;
      Done (w', None, true)
  | WorkerCh (Some dp) =>
      match ds dp with
      | None => Panic "nil pointer dereference"
      | Some p =>
          match dss (tr w) !! p with
          | None => Panic "nil pointer dereference"
          | Some d =>
              let w1 :=
                match process dp d with
                | Some d' =>
                    mkW (mkTransceiver (<[p := d']> (dss (tr w)))
                                       (flusherChs (tr w))
                                       (dsCopyChs (tr w)) (log (tr w)))
                        (recent w ∪ {[Id d']})
                | None =>
                    mkW (add_log (LogProcessError id) (tr w)) (recent w)
                end in
              match dss (tr w1) !! p with
              | None => Panic "nil pointer dereference"
              | Some d1 =>
                  if shouldBeFlushed now d1
                  then (w2 <<- flushAndForget cfg now p d1 w1 ;;
                        Done (w2, None, false))
                  else Done (w1, None, false)
              end
          end
      end
  end.

(** [worker(id)] on the cases its [select] picks. *)
Fixpoint worker (cfg : Config) (now : Z) (id : Z)
    (sels : list selected) (w : wstate) : outcome wstate :=
  match sels with
  | [] => Done w
  | sel :: rest =>
      r <<- worker_iter cfg now id sel w ;;
      if r.2 then Done r.1.1 else worker cfg now id rest r.1.1
  end.

End Worker.

End Transceiver.

(** ** The worker of [receiver/worker.go] *)

Module Receiver.

(** [incomingDpWithDs]; [rds] points to the live data source. *)
Record incomingDpWithDs : Type := mkIncoming {
  dp_Value : float;
  dp_TimeStamp : Z;
  rds : Z
}.

(** What the worker holds and reaches: the cache [dss], its map [recent],
    the calls [dsf.flushDs(rds, block)] made so far, and the log. *)
Record state : Type := mkState {
  dss : gmap Z trDataSource;
  recent : gset Z;
  flushed : list (Z * bool);
  log : list logmsg
}.

Inductive selected : Type :=
  | PeriodicFlushCheck
  | WorkerCh (dpds : option incomingDpWithDs).

Section Worker.

(** The methods of the data source and the package variable [debug]
    are not among the sources; the worker is written over any such. *)
Variable shouldBeFlushed : trDataSource -> Z -> Z -> Z -> bool.
Variable ProcessIncomingDataPoint :
  trDataSource -> float -> Z -> option trDataSource.
Variable debug : bool.

Definition debug_log (l : logmsg) : list logmsg :=
  if debug then [l] else [].

(** The body of [for dsId, _ := range recent] in
    [workerPeriodicFlush]. *)
Definition periodicBody (ident : string)
    (minCacheDur maxCacheDur maxPoints : Z) (k : Z) (s : state)
    : outcome state :=
  match dss s !! k with
  | None =>
      Done (mkState (dss s) (recent s ∖ {[k]}) (flushed s)
                    (log s ++ [LogReceiverLookup ident k]))
  | Some d =>
      if shouldBeFlushed d maxPoints minCacheDur minCacheDur
      then Done (mkState (dss s) (recent s ∖ {[Id d]})
                         (flushed s ++ [(k, false)])
                         (log s ++ debug_log
                            (LogReceiverPeriodic ident (Id d))))
      else Done s
  end.

Definition workerPeriodicFlush (ident : string) (s : state)
    (minCacheDur maxCacheDur maxPoints : Z) : outcome state :=
  rangeLoop recent (periodicBody ident minCacheDur maxCacheDur maxPoints)
            (elements (recent s)) s.

(** One turn of the [for] loop of [worker]: the state after and whether
    the function returned. *)
Definition worker_iter (ident : string)
    (minCacheDur maxCacheDur maxPoints : Z) (sel : selected) (s : state)
    : outcome (state * bool) :=
  match sel with
  | PeriodicFlushCheck =>
      s' <<- workerPeriodicFlush ident s minCacheDur maxCacheDur
                                 maxPoints ;;
      Done (s', false)
  | WorkerCh None => Done (s, true)
  | WorkerCh (Some dpds) =>
      match dss s !! rds dpds with
      | None => Panic "nil pointer dereference"
      | Some d =>
          match ProcessIncomingDataPoint d (dp_Value dpds)
                                         (dp_TimeStamp dpds) with
          | Some d' =>
              let dss' := <[rds dpds := d']> (dss s) in
              if shouldBeFlushed d' maxPoints minCacheDur maxCacheDur
              then Done (mkState dss' (recent s ∖ {[Id d']})
                                 (flushed s ++ [(rds dpds, false)])
                                 (log s ++ debug_log
                                    (LogReceiverFlush ident (Id d'))),
                         false)
              else Done (mkState dss' (recent s ∪ {[Id d']})
                                 (flushed s) (log s), false)
          | None =>
              Done (mkState (dss s) (recent s) (flushed s)
                            (log s ++ [LogReceiverProcessError ident
                                         (DsName d)]), false)
          end
      end
  end.

(** [worker] on the cases its [select] picks. *)
Fixpoint worker (ident : string) (minCacheDur maxCacheDur maxPoints : Z)
    (sels : list selected) (s : state) : outcome state :=
  match sels with
  | [] => Done s
  | sel :: rest =>
      r <<- worker_iter ident minCacheDur maxCacheDur maxPoints sel s ;;
      if r.2 then Done r.1
      else worker ident minCacheDur maxCacheDur maxPoints rest r.1
  end.

End Worker.

End Receiver.

(** ** Well-formed states of the transceiver *)

(** The registry files every data source under its own id, and ids are
    non-negative. *)
Definition registry_ok (m : gmap Z trDataSource) : Prop :=
  forall k d, m !! k = Some d -> Id d = k /\ 0 <= k <= Int64.max_int.

(** [startFlushers] has run and every flusher comes back to its receive. *)
Definition flushers_ready (cfg : Config) (t : Transceiver.trTransceiver)
    : Prop :=
  0 < Workers cfg
  /\ length (Transceiver.flusherChs t) = Z.to_nat (Workers cfg)
  /\ Forall (fun c => ch_recv c = true /\ ch_closed c = false)
            (Transceiver.flusherChs t).

(** The flusher of the shard of [k] has been handed the snapshot [d]. *)
Definition delivered (cfg : Config) (t : Transceiver.trTransceiver) (k : Z)
    (d : trDataSource) : Prop :=
  exists c, Transceiver.flusherChs t !! Z.to_nat (k mod Workers cfg) = Some c
            /\ mostlyCopy d ∈ ch_taken c.

(** ** The flushers and the shutdown of [transceiver.go] *)

(** What a flusher does, as the storage backend and the log see it. *)
Inductive flusherEvent : Type :=
  | Flushed (d : trDataSource)
  | FlushError (d : trDataSource) (err : string)
  | FlusherExit.

(** The data sources [flushDataSource] was called with. *)
Definition stored (evs : list flusherEvent) : list trDataSource :=
  omap (fun e => match e with
                 | Flushed d | FlushError d _ => Some d
                 | FlusherExit => None
                 end) evs.

(** What the receives [v, ok := <-c] of the goroutine looping on an
    unbuffered channel yield, in order: the values handed over, then
    [ok = false] once the channel is closed. *)
Definition received {A} (c : chan A) : list (option A) :=
  (Some <$> ch_taken c) ++ (if ch_closed c then [None] else []).

Section Flusher.

(** [flushDataSource] is the storage backend: [Some err] is its error. *)
Variable flushDataSource : trDataSource -> option string.

(** The [for] loop of [flusher] on what its receives yield; it waits at
    the receive when the list is exhausted. *)
Fixpoint flusher_loop (rcv : list (option trDataSource))
    : list flusherEvent :=
  match rcv with
  | [] => []
  | Some d :: rest =>
      match flushDataSource d with
      | None => Flushed d
      | Some err => FlushError d err
      end :: flusher_loop rest
  | None :: _ => [FlusherExit]
  end.

(** [flusher(id)] *)
Definition flusher (t : Transceiver.trTransceiver) (id : Z)
    : outcome (list flusherEvent) :=
  c <<- index (Transceiver.flusherChs t) id ;;
  Done (flusher_loop (received c)).

End Flusher.

(** [for _, ch := range chs { close(ch) }] *)
Fixpoint close_all {A} (chs : list (chan A)) : outcome (list (chan A)) :=
  match chs with
  | [] => Done []
  | c :: rest =>
      c' <<- chan_close c ;;
      rest' <<- close_all rest ;;
      Done (c' :: rest')
  end.

(** [stopFlushers], up to its wait for the flushers. *)
Definition stopFlushers (t : Transceiver.trTransceiver)
    : outcome Transceiver.trTransceiver :=
  chs <<- close_all (Transceiver.flusherChs t) ;;
  Done (Transceiver.mkTransceiver (Transceiver.dss t) chs
          (Transceiver.dsCopyChs t) (Transceiver.log t)).

(** [stopWorkers], up to its wait for the workers: it polls until every
    worker channel is empty ([Blocked] stands for a poll that found a
    channel with something in it and sleeps), then closes them all. *)
Definition stopWorkers (workerChs : list (chan trDataPoint))
    : outcome (list (chan trDataPoint)) :=
  if forallb (fun c => (chan_len c =? 0)%nat) workerChs
  then close_all workerChs
  else Blocked.

(** [stopStatWorker], up to its wait for the stat worker. *)
Definition stopStatWorker (stCh : chan trStat) : outcome (chan trStat) :=
  if (0 <? chan_len stCh)%nat then Blocked else chan_close stCh.

(** ** The dispatcher of [transceiver.go] *)

Module Dispatcher.

(** Modelled from the spec: [trDataSources] and its methods are not among
    the sources. The registry maps names and ids to data sources;
    [getByName] gives the data source registered under a name. *)
Definition getByName (m : gmap Z trDataSource) (nm : string) : option Z :=
  (fun r : nat * (Z * trDataSource) => r.2.1)
    <$> list_find (fun e : Z * trDataSource => DsName e.2 = nm)
                  (map_to_list m).

(** Modelled from the spec: [insert] is not among the sources; it files the
    data source under its id. *)
Definition insert (d : trDataSource) (m : gmap Z trDataSource)
    : gmap Z trDataSource :=
  <[Id d := d]> m.

Inductive dlogmsg : Type :=
  | LogCreateError (err : string).

(** What the dispatcher reaches: the transceiver, the worker channels and
    its log lines. *)
Record state : Type := mkState {
  tr : Transceiver.trTransceiver;
  workerChs : list (chan trDataPoint);
  dlog : list dlogmsg
}.

(** The worker channels [startWorkers] makes. *)
Definition make_workerChs (cfg : Config) : list (chan trDataPoint) :=
  replicate (Z.to_nat (Workers cfg)) (make_chan 1024).

(** [t.workerChs[dp.ds.Id%int64(config.Workers)] <- dp], [p] being the
    pointer [dp.ds]. *)
Definition forward (cfg : Config) (dp : trDataPoint) (p : Z) (s : state)
    : outcome state :=
  match Transceiver.dss (tr s) !! p with
  | None => Panic "nil pointer dereference"
  | Some d =>
      i <<- shard (Workers cfg) (Id d) ;;
      c <<- index (workerChs s) i ;;
      c' <<- chan_send c (mkDataPoint (Name dp) (TimeStamp dp) (Value dp)
                                      (Some p)) ;;
      Done (mkState (tr s) (set_index (workerChs s) i c') (dlog s))
  end.

Section Dispatcher.

(** [config.findMatchingDsSpec] and [createDataSource] are not among the
    sources; the dispatcher is written over any such. *)
Variable dsSpec : Type.
Variable findMatchingDsSpec : string -> option dsSpec.
Variable createDataSource : string -> dsSpec -> string + trDataSource.

(** The body of the [for] loop of [dispatcher] for a data point received
    ([ok = true]). *)
Definition dispatcher_iter (cfg : Config) (dp : trDataPoint) (s : state)
    : outcome state :=
  match getByName (Transceiver.dss (tr s)) (Name dp) with
  | Some p => forward cfg dp p s
  | None =>
      match findMatchingDsSpec (Name dp) with
      | Some spec =>
          match createDataSource (Name dp) spec with
          | inr d =>
              let t := tr s in
              let t' := Transceiver.mkTransceiver
                          (insert d (Transceiver.dss t))
                          (Transceiver.flusherChs t)
                          (Transceiver.dsCopyChs t) (Transceiver.log t) in
              forward cfg dp (Id d) (mkState t' (workerChs s) (dlog s))
          | inl err =>
              Done (mkState (tr s) (workerChs s)
                            (dlog s ++ [LogCreateError err]))
          end
      | None => Done s
      end
  end.

(** The dispatcher on the data points it receives, in order. *)
Fixpoint dispatcher (cfg : Config) (dps : list trDataPoint) (s : state)
    : outcome state :=
  match dps with
  | [] => Done s
  | dp :: rest =>
      s' <<- dispatcher_iter cfg dp s ;;
      dispatcher cfg rest s'
  end.

End Dispatcher.

End Dispatcher.

(** ** Predicates of the statements *)

(** A metric kind [statWorker] knows. *)
Definition known_metric (st : trStat) : bool :=
  bool_decide (metric st = "c") || bool_decide (metric st = "g")
  || bool_decide (metric st = "ms").

(** The cache files every data source under its own id. *)
Definition cache_ok (m : gmap Z trDataSource) : Prop :=
  forall k d, m !! k = Some d -> Id d = k.

(** Whether the periodic pass of [receiver/worker.go] flushes the id [k]. *)
Definition periodic_due (sbf : trDataSource -> Z -> Z -> Z -> bool)
    (m : gmap Z trDataSource) (maxPoints minCacheDur : Z) (k : Z) : bool :=
  match m !! k with
  | Some d => sbf d maxPoints minCacheDur minCacheDur
  | None => false
  end.

(** Whether a pass of [transceiver.go] flushes the data source [d]. *)
Definition pass_due (sbf : Z -> trDataSource -> bool) (now : Z)
    (flushEverything : bool) (d : trDataSource) : bool :=
  flushEverything || sbf now d.

(** Every data point waiting in, or taken from, the worker channel [i]
    points to a registered data source of the shard [i]. *)
Definition routed_ok (cfg : Config) (s : Dispatcher.state) : Prop :=
  forall (i : nat) c dp,
    Dispatcher.workerChs s !! i = Some c ->
    dp ∈ ch_buf c ++ ch_taken c ->
    exists p d, ds dp = Some p
                /\ Transceiver.dss (Dispatcher.tr s) !! p = Some d
                /\ Z.to_nat (p mod Workers cfg) = i.

(** The worker channels are those of [startWorkers], open, with room left
    and nobody parked on them. *)
Definition workers_ready (cfg : Config) (s : Dispatcher.state) : Prop :=
  0 < Workers cfg
  /\ length (Dispatcher.workerChs s) = Z.to_nat (Workers cfg)
  /\ Forall (fun c => ch_closed c = false /\ ch_recv c = false
                      /\ (length (ch_buf c) < ch_cap c)%nat)
            (Dispatcher.workerChs s).

(** [close(c)] on an open channel. *)
Definition closed_chan {A} (c : chan A) : chan A :=
  mkChan (ch_cap c) (ch_buf c) (ch_recv c) (ch_taken c) true.

(** The snapshots a pass of [transceiver.go] over the ids [keys] hands to
    the flusher [i]: one for each id whose data source is registered, due
    and of that shard. *)
Definition pass_snapshots (sbf : Z -> trDataSource -> bool) (now : Z)
    (flushEverything : bool) (cfg : Config) (m : gmap Z trDataSource)
    (i : nat) (keys : list Z) : list trDataSource :=
  omap (fun k => match m !! k with
                 | Some d =>
                     if pass_due sbf now flushEverything d
                        && bool_decide (Z.to_nat (k mod Workers cfg) = i)
                     then Some (mostlyCopy d)
                     else None
                 | None => None
                 end) keys.

(** The lines a pass of [transceiver.go] over the ids [keys] logs: one for
    each id the registry does not know. *)
Definition pass_anomalies (id : Z) (m : gmap Z trDataSource)
    (keys : list Z) : list logmsg :=
  omap (fun k => match m !! k with
                 | Some _ => None
                 | None => Some (LogFlushLookup id k)
                 end) keys.



(** * Properties *)

(** ** Integers and random draws *)

Lemma wrap_id z : Int64.in_range z -> Int64.wrap z = z.
Proof.
  unfold Int64.in_range, Int64.min_int, Int64.max_int, Int64.wrap. intros H.
  rewrite Z.mod_small; lia.
Qed.

Lemma wrap_in_range z : Int64.in_range (Int64.wrap z).
Proof.
  unfold Int64.in_range, Int64.min_int, Int64.max_int, Int64.wrap.
  pose proof (Z.mod_pos_bound (z + 2 ^ 63) (2 ^ 64)). lia.
Qed.

Lemma rand_Intn_range draw n r : rand_Intn draw n = Done r -> 0 <= r < n.
Proof.
  unfold rand_Intn. destruct (n <=? 0) eqn:E; [discriminate|].
  intros [= <-]. apply Z.mod_pos_bound. lia.
Qed.

Lemma rand_Intn_onto n r : 0 <= r < n -> rand_Intn r n = Done r.
Proof.
  intros H. unfold rand_Intn.
  destruct (n <=? 0) eqn:E; [lia|]. by rewrite Z.mod_small.
Qed.

(** ** The periodic-flush timers *)

Section TimerFacts.

Variables minCacheDur maxCacheDur : Z.
Hypothesis Hmin : 0 <= minCacheDur.
Hypothesis Hle : minCacheDur <= maxCacheDur.
Hypothesis Hmax : maxCacheDur <= Int64.max_int.

Let delta := maxCacheDur - minCacheDur.

Lemma delta_no_overflow : Int64.sub maxCacheDur minCacheDur = delta.
Proof.
  unfold Int64.sub. apply wrap_id.
  unfold Int64.in_range, Int64.min_int, Int64.max_int in *. subst delta. lia.
Qed.

Lemma quot_no_overflow d : 0 < d -> Int64.quot delta d = delta / d.
Proof.
  intros Hd. unfold Int64.quot.
  rewrite Z.quot_div_nonneg by (subst delta; lia).
  apply wrap_id.
  assert (0 <= delta / d <= delta).
  { split; [apply Z.div_pos; subst delta; lia|].
    apply Z.div_le_upper_bound; [lia|]. subst delta. nia. }
  unfold Int64.in_range, Int64.min_int, Int64.max_int in *. subst delta. lia.
Qed.

(** [receiver/worker.go]: the argument of [rand.Intn] is positive and the
    duration slept lies between the two cache durations. *)
Lemma receiver_sleep_within draw :
  exists dur,
    ReceiverTimer.workerPeriodicFlushSignal minCacheDur maxCacheDur draw
      = Done dur
    /\ minCacheDur <= dur <= maxCacheDur.
Proof.
  unfold ReceiverTimer.workerPeriodicFlushSignal.
  rewrite delta_no_overflow, quot_no_overflow by done.
  assert (Hq : 0 <= delta / 1000000) by (apply Z.div_pos; subst delta; lia).
  assert (Hm : 1000000 * (delta / 1000000) <= delta)
    by (apply Z.mul_div_le; lia).
  assert (Hi : Int64.add (delta / 1000000) 1 = delta / 1000000 + 1).
  { unfold Int64.add. apply wrap_id.
    unfold Int64.in_range, Int64.min_int, Int64.max_int in *.
    subst delta. lia. }
  rewrite Hi.
  destruct (rand_Intn draw (delta / 1000000 + 1)) as [r| |msg] eqn:Er.
  - apply rand_Intn_range in Er. cbn [obind].
    assert (Hr : Int64.mul r Millisecond = r * 1000000).
    { unfold Int64.mul, Millisecond. apply wrap_id.
      unfold Int64.in_range, Int64.min_int, Int64.max_int in *.
      subst delta. nia. }
    rewrite Hr.
    assert (Hs : Int64.add (r * 1000000) minCacheDur
                 = r * 1000000 + minCacheDur).
    { unfold Int64.add. apply wrap_id.
      unfold Int64.in_range, Int64.min_int, Int64.max_int in *.
      subst delta. nia. }
    rewrite Hs. eexists; split; [reflexivity|]. subst delta. nia.
  - unfold rand_Intn in Er. destruct (_ <=? 0); discriminate.
  - unfold rand_Intn in Er. destruct (_ <=? 0) eqn:E; [lia|discriminate].
Qed.

End TimerFacts.

(** C8: the timer of [transceiver.go] divides the nanosecond difference by
    1000 and multiplies the draw by a millisecond, so the sleep is up to a
    thousand times the difference: with [MinCache = 0], [MaxCache = 1s] and
    the draw 999999 (a value [rand.Intn(1000000)] can return) the worker
    sleeps 999.999 seconds, outside [[MinCache, MaxCache]]. *)
Theorem transceiver_sleep_exceeds_MaxCache :
  0 <= 1000000000
  /\ rand_Intn 999999 1000000 = Done 999999
  /\ TransceiverTimer.periodicFlushSleep 0 1000000000 999999
     = Done 999999000000
  /\ ~ (0 <= 999999000000 <= 1000000000).
Proof.
  split; [lia|]. split; [reflexivity|]. split; [reflexivity|]. lia.
Qed.

(** C10: with [MaxCache = MinCache] the timer of [transceiver.go] calls
    [rand.Intn(0)], which panics, whatever the duration and the draw. *)
Theorem transceiver_Intn_panics_on_equal_durations (d draw : Z) :
  TransceiverTimer.periodicFlushSleep d d draw
  = Panic "invalid argument to Intn".
Proof.
  unfold TransceiverTimer.periodicFlushSleep, Int64.sub.
  rewrite Z.sub_diag. reflexivity.
Qed.

(** ** The flush tick *)

Section TickFacts.

Import Tick.

Lemma tick_inv_init : tick_inv init.
Proof. repeat split; cbn; lia. Qed.

Lemma tick_inv_next a s s' : tick_inv s -> next a s = Some s' -> tick_inv s'.
Proof.
  intros (Hcap & Hrecv & Hcl & Hone & Hsum).
  destruct s as [c p w d f]; cbn in *.
  destruct c as [cap buf rcv taken cl]; cbn in *. subst cap rcv cl.
  unfold next, pending, in_flight, dropped, chan_len, chan_send, chan_recv
    in *.
  cbn in *.
  destruct a, p; cbn; try discriminate.
  - destruct buf as [|x buf]; cbn; intros [= <-];
      unfold tick_inv, pending, in_flight, dropped, chan_len; cbn;
      rewrite ?length_app; cbn in *; repeat split; lia.
  - destruct buf as [|x buf]; cbn in *; [|lia].
    intros [= <-]; repeat split; cbn; lia.
  - destruct buf as [|x buf]; cbn; [discriminate|].
    intros [= <-]; repeat split; cbn in *; lia.
  - destruct buf as [|x buf]; cbn; [discriminate|].
    intros [= <-]; repeat split; cbn in *; lia.
Qed.

Lemma tick_inv_reachable s : reachable s -> tick_inv s.
Proof.
  induction 1 as [|s s' _ IH Hstep]; [apply tick_inv_init|].
  destruct Hstep as [a s s' Hn]. eauto using tick_inv_next.
Qed.

Lemma run_reachable acts s s' :
  reachable s -> run acts s = Some s' -> reachable s'.
Proof.
  revert s. induction acts as [|a acts IH]; intros s Hs; cbn.
  - by intros [= <-].
  - destruct (next a s) as [s1|] eqn:E; [|discriminate].
    apply IH. eapply reach_step; [done|]. by econstructor.
Qed.

(** Between two wakes of the timer no tick is created: what is flushed is
    taken from the tick pending or about to be sent. *)
Lemma run_between_wakes acts s s' :
  tick_inv s -> Forall (fun a => a <> TimerWake) acts ->
  run acts s = Some s' ->
  (flushes s' + pending s' + in_flight s'
   = flushes s + pending s + in_flight s)%nat.
Proof.
  revert s. induction acts as [|a acts IH]; intros s Hinv Hall; cbn.
  - by intros [= <-].
  - apply Forall_cons in Hall as [Ha Hall].
    destruct (next a s) as [s1|] eqn:E; [|discriminate].
    intros Hrun. rewrite (IH s1 (tick_inv_next _ _ _ Hinv E) Hall Hrun).
    clear IH Hrun Hall.
    destruct Hinv as (Hcap & Hrecv & Hcl & Hone & _).
    destruct s as [c p w l f]; cbn in *.
    destruct c as [cap buf rcv taken cl]; cbn in *. subst cap rcv cl.
    unfold next, pending, in_flight, chan_len, chan_send, chan_recv in *.
    cbn in *.
    destruct a, p; cbn in *; try discriminate; try done.
    + destruct buf as [|x buf]; cbn in *; [|lia].
      injection E as <-. cbn. lia.
    + destruct buf as [|x buf]; cbn in *; [discriminate|].
      injection E as <-. cbn. lia.
    + destruct buf as [|x buf]; cbn in *; [discriminate|].
      injection E as <-. cbn. lia.
Qed.

End TickFacts.

(** C9: in every state the timer goroutine and [statWorker] can reach,
    [flushCh] holds at most one tick; a wake that finds a tick pending
    leaves the channel as it is and logs the drop; the send after
    [len(flushCh) == 0] never blocks; the flushes triggered never
    outnumber the wakes; and until the next wake (the next interval) at
    most one flush is triggered. *)
Theorem flushCh_holds_at_most_one_tick (s : Tick.state) :
  Tick.reachable s ->
  (Tick.pending s <= 1)%nat
  /\ (Tick.pending s <> 0%nat ->
      exists s', Tick.next Tick.TimerWake s = Some s'
                 /\ Tick.flushCh s' = Tick.flushCh s
                 /\ Tick.log s' = Tick.log s ++ [LogStatTimerDropped]
                 /\ Tick.flushes s' = Tick.flushes s)
  /\ (Tick.timer s = Tick.Sending ->
      exists s', Tick.next Tick.TimerSend s = Some s'
                 /\ Tick.pending s' = 1%nat)
  /\ (Tick.flushes s <= Tick.wakes s)%nat
  /\ (forall acts s',
        Forall (fun a => a <> Tick.TimerWake) acts ->
        Tick.run acts s = Some s' ->
        (Tick.flushes s' <= S (Tick.flushes s))%nat).
Proof.
  intros Hr. apply tick_inv_reachable in Hr.
  assert (Hbetween : forall acts s',
             Forall (fun a => a <> Tick.TimerWake) acts ->
             Tick.run acts s = Some s' ->
             (Tick.flushes s' <= S (Tick.flushes s))%nat).
  { intros acts s' Hall Hrun.
    pose proof (run_between_wakes acts s s' Hr Hall Hrun) as Heq.
    destruct Hr as (_ & _ & _ & Hone & _). lia. }
  destruct Hr as (Hcap & Hrecv & Hcl & Hone & Hsum).
  destruct s as [c p w l f]; cbn in *.
  destruct c as [cap buf rcv taken cl]; cbn in *. subst cap rcv cl.
  unfold Tick.pending, Tick.in_flight, Tick.dropped, chan_len in *;
    cbn in *.
  split; [lia|]. split; [|split; [|split; [lia|exact Hbetween]]].
  - intros Hp. destruct p; cbn in *; [|lia].
    unfold Tick.next, chan_len; cbn.
    destruct buf as [|x buf]; [done|]. cbn. eauto.
  - intros ->. cbn in *. destruct buf as [|x buf]; cbn in *; [|lia].
    unfold Tick.next, chan_send; cbn. eauto.
Qed.

(** The state after one wake and its send: a tick is pending. *)
Lemma flushCh_holds_at_most_one_tick_witness :
  let s := Tick.mkState (mkChan 1 [1] false [] false) Tick.Sleeping 1 [] 0 in
  (Tick.pending s <= 1)%nat
  /\ (Tick.pending s <> 0%nat ->
      exists s', Tick.next Tick.TimerWake s = Some s'
                 /\ Tick.flushCh s' = Tick.flushCh s
                 /\ Tick.log s' = Tick.log s ++ [LogStatTimerDropped]
                 /\ Tick.flushes s' = Tick.flushes s)
  /\ (Tick.timer s = Tick.Sending ->
      exists s', Tick.next Tick.TimerSend s = Some s'
                 /\ Tick.pending s' = 1%nat)
  /\ (Tick.flushes s <= Tick.wakes s)%nat
  /\ (forall acts s',
        Forall (fun a => a <> Tick.TimerWake) acts ->
        Tick.run acts s = Some s' ->
        (Tick.flushes s' <= S (Tick.flushes s))%nat).
Proof.
  intros s. apply (flushCh_holds_at_most_one_tick s).
  apply (Tick.reach_step
           (Tick.mkState (mkChan 1 [] false [] false) Tick.Sending 1 [] 0)).
  - apply (Tick.reach_step Tick.init).
    + apply Tick.reach_init.
    + apply (Tick.step_next Tick.TimerWake). reflexivity.
  - apply (Tick.step_next Tick.TimerSend). reflexivity.
Defined.

(** ** The stats aggregator *)

Section StatsFacts.

Import Stats.

Variable cfg : Config.
Variable now : Z.

(** The maps after the stats [sts] have been received. *)
Lemma statWorker_stats sts s :
  statWorker cfg now (StCh ∘ Some <$> sts) s
  = foldl (fun s st => statWorker_iter cfg now (StCh (Some st)) s) s sts.
Proof.
  revert s. induction sts as [|st sts IH]; intros s; [done|].
  cbn [fmap list_fmap foldl statWorker]. cbn [compose].
  replace (returned (statWorker_iter cfg now (StCh (Some st)) s))
    with false; [apply IH|].
  unfold statWorker_iter. by destruct (recvStat (st_maps s) st).
Qed.

Lemma statWorker_stats_maps sts s :
  st_maps (statWorker cfg now (StCh ∘ Some <$> sts) s)
  = foldl (fun m st => (recvStat m st).1) (st_maps s) sts.
Proof.
  rewrite statWorker_stats. revert s.
  induction sts as [|st sts IH]; intros s; [done|].
  cbn [foldl]. rewrite IH. f_equal.
  unfold statWorker_iter. by destruct (recvStat (st_maps s) st).
Qed.

Lemma statWorker_stats_queued sts s :
  queued (statWorker cfg now (StCh ∘ Some <$> sts) s) = queued s.
Proof.
  rewrite statWorker_stats. revert s.
  induction sts as [|st sts IH]; intros s; [done|].
  cbn [foldl]. rewrite IH.
  unfold statWorker_iter. by destruct (recvStat (st_maps s) st).
Qed.

(** A whole interval: the points queued are those of the three loops of
    [flushStats] on the maps the stats left. *)
Lemma statWorker_interval sts :
  let m := st_maps (statWorker cfg now (StCh ∘ Some <$> sts) init) in
  queued (statWorker cfg now (interval sts) init)
  = flushCounts cfg now m ++ flushGauges cfg now m ++ flushTimers cfg now m.
Proof.
  cbn zeta. unfold interval.
  assert (Happ : forall l1 l2 s,
             returned (statWorker cfg now l1 s) = false ->
             statWorker cfg now (l1 ++ l2) s
             = statWorker cfg now l2 (statWorker cfg now l1 s)).
  { induction l1 as [|a l1 IH]; intros l2 s Hr; [done|].
    cbn [app statWorker] in *.
    destruct (returned (statWorker_iter cfg now a s)) eqn:E.
    - by rewrite E in Hr.
    - by apply IH. }
  assert (Hret : forall l s, returned s = false ->
             returned (statWorker cfg now (StCh ∘ Some <$> l) s) = false).
  { induction l as [|st l IH]; intros s Hs; [done|].
    cbn [fmap list_fmap statWorker compose].
    assert (E : returned (statWorker_iter cfg now (StCh (Some st)) s)
                = false).
    { unfold statWorker_iter. by destruct (recvStat (st_maps s) st). }
    rewrite E. by apply IH. }
  rewrite Happ by by apply Hret.
  cbn [statWorker statWorker_iter flushStats returned queued].
  by rewrite statWorker_stats_queued.
Qed.

(** The counter of [c] after the stats [sts]: the wrapped sum of the
    truncated values [c] received as a counter. *)
Lemma counts_after c sts m :
  counts (foldl (fun m st => (recvStat m st).1) m sts) !! c
  = match observed "c" c sts with
    | [] => counts m !! c
    | vs => Some (foldl (fun acc v => Int64.add acc (Float64.to_int64 v))
                        (default 0 (counts m !! c)) vs)
    end.
Proof.
  revert m. induction sts as [|st sts IH]; intros m; [done|].
  cbn [foldl]. rewrite IH. clear IH. unfold observed.
  destruct (decide (metric st = "c" /\ name st = c)) as [[Hm Hn]|Hno].
  - rewrite filter_cons_True by done. cbn [fmap list_fmap foldl].
    unfold recvStat. rewrite decide_True by done. cbn [fst counts].
    rewrite Hn, lookup_insert_eq. cbn [default].
    assert (Hold : default 0
              (match counts m !! c with
               | Some _ => counts m
               | None => <[c:=0]> (counts m)
               end !! c) = default 0 (counts m !! c)).
    { destruct (counts m !! c) eqn:E; [by rewrite E|].
      by rewrite lookup_insert_eq. }
    rewrite Hold. by destruct (value <$> _).
  - rewrite filter_cons_False by done.
    assert (Hsame : counts (recvStat m st).1 !! c = counts m !! c).
    { unfold recvStat. repeat case_decide; cbn [fst counts]; try done.
      assert (name st <> c) by (intros ?; apply Hno; done).
      rewrite lookup_insert_ne by done.
      destruct (counts m !! name st); [done|].
      by rewrite lookup_insert_ne. }
    by rewrite Hsame.
Qed.

(** The timer list of [c] after the stats [sts]: the four zeros of
    [make([]float64, 4)], then the values [c] received as a timer. *)
Lemma timers_after c sts m :
  timers (foldl (fun m st => (recvStat m st).1) m sts) !! c
  = match observed "ms" c sts with
    | [] => timers m !! c
    | vs => Some (default make_slice4 (timers m !! c) ++ vs)
    end.
Proof.
  revert m. induction sts as [|st sts IH]; intros m; [done|].
  cbn [foldl]. rewrite IH. clear IH. unfold observed.
  destruct (decide (metric st = "ms" /\ name st = c)) as [[Hm Hn]|Hno].
  - rewrite filter_cons_True by done. cbn [fmap list_fmap].
    unfold recvStat. rewrite Hm.
    rewrite decide_False by done. rewrite decide_False by done.
    rewrite decide_True by done. cbn [fst timers].
    rewrite Hn, lookup_insert_eq. cbn [default].
    assert (Hold : default []
              (match timers m !! c with
               | Some _ => timers m
               | None => <[c:=make_slice4]> (timers m)
               end !! c) = default make_slice4 (timers m !! c)).
    { destruct (timers m !! c) eqn:E; [by rewrite E|].
      by rewrite lookup_insert_eq. }
    rewrite Hold. destruct (value <$> _); [done|].
    cbn. by rewrite <- app_assoc.
  - rewrite filter_cons_False by done.
    assert (Hsame : timers (recvStat m st).1 !! c = timers m !! c).
    { unfold recvStat. repeat case_decide; cbn [fst timers]; try done.
      assert (name st <> c) by (intros ?; apply Hno; done).
      rewrite lookup_insert_ne by done.
      destruct (timers m !! name st); [done|].
      by rewrite lookup_insert_ne. }
    by rewrite Hsame.
Qed.

(** The entries of a map with a given key. *)
Lemma filter_key {V} (m : gmap string V) c v :
  m !! c = Some v ->
  filter (fun e : string * V => e.1 = c) (map_to_list m) = [(c, v)].
Proof.
  intros Hm. apply elem_of_map_to_list in Hm.
  pose proof (NoDup_fst_map_to_list m) as Hnd.
  induction (map_to_list m) as [|[k x] l IH]; [by apply elem_of_nil in Hm|].
  cbn [fmap list_fmap fst] in Hnd. apply NoDup_cons in Hnd as [Hk Hnd].
  apply elem_of_cons in Hm as [[= <- <-]|Hin].
  - rewrite filter_cons_True by done. f_equal.
    clear IH. induction l as [|[k' x'] l IHl]; [done|].
    cbn [fmap list_fmap fst] in Hk, Hnd.
    apply not_elem_of_cons in Hk as [Hne Hk].
    apply NoDup_cons in Hnd as [_ Hnd].
    rewrite filter_cons_False by (cbn; congruence). by apply IHl.
  - rewrite filter_cons_False; [by apply IH|].
    cbn. intros ->. apply Hk.
    apply list_elem_of_fmap. by exists (c, v).
Qed.

(** The counter loop queues one point under the name of [c]. *)
Lemma named_flushCounts m c n :
  counts m !! c = Some n ->
  named (StatsNamePrefix cfg +:+ "." +:+ c) (flushCounts cfg now m)
  = [flushCount cfg now (c, n)].
Proof.
  intros Hm. unfold named, flushCounts.
  assert (Hf : forall l : list (string * Z),
             filter (fun dp => Name dp = StatsNamePrefix cfg +:+ "." +:+ c)
                    (flushCount cfg now <$> l)
             = flushCount cfg now <$> filter (fun e => e.1 = c) l).
  { induction l as [|[k x] l IH]; [done|].
    cbn [fmap list_fmap].
    destruct (decide (k = c)) as [->|Hne].
    - rewrite !filter_cons_True by done. cbn [fmap list_fmap].
      f_equal. apply IH.
    - rewrite !filter_cons_False; [apply IH|by cbn|].
      cbn. intros H. apply Hne.
      by apply (inj (String.app ".")),
               (inj (String.app (StatsNamePrefix cfg))). }
  rewrite Hf, (filter_key _ _ _ Hm). done.
Qed.

End StatsFacts.

(** From fresh maps, the list [flushStats] finds for a timer is four zeros
    followed by the values observed. *)
Lemma timer_list_at_flush (cfg : Config) (now : Z) (sts : list trStat)
    (c : string) :
  Stats.observed "ms" c sts <> [] ->
  Stats.timers
    (Stats.st_maps
       (Stats.statWorker cfg now (Stats.StCh ∘ Some <$> sts) Stats.init))
    !! c
  = Some (Stats.make_slice4 ++ Stats.observed "ms" c sts).
Proof.
  intros Hne. rewrite statWorker_stats_maps, timers_after.
  destruct (Stats.observed "ms" c sts); [done|].
  cbn [Stats.init Stats.st_maps Stats.empty Stats.timers].
  by rewrite lookup_empty.
Qed.

(** C1: the three timer events of scenario S4 (10, 20 and 30 for [rt])
    make [flushStats] queue a count of 7, a lower of 0 and a mean of 60/7,
    where the observed list has 3 elements, minimum 10 and mean 20: the
    list starts with the four zeros of [make([]float64, 4)]. *)
Theorem timer_summary_includes_presized_zeros :
  let cfg := mkConfig 1 0 0 1000000000 "s" in
  let sts := [mkStat "rt" "ms" 10; mkStat "rt" "ms" 20; mkStat "rt" "ms" 30] in
  Stats.queued (Stats.statWorker cfg 0 (Stats.interval sts) Stats.init)
  = [ mkDataPoint "s.timers.rt.count" 0 7 None;
      mkDataPoint "s.timers.rt.lower" 0 0 None;
      mkDataPoint "s.timers.rt.upper" 0 30 None;
      mkDataPoint "s.timers.rt.sum" 0 60 None;
      mkDataPoint "s.timers.rt.mean" 0 (60 / 7) None ]%float.
Proof. vm_compute. reflexivity. Qed.

(** C6 fails as stated: two counter events of 0.5 for [hits] in a one
    second interval give [s.hits] the value 0, not (0.5 + 0.5) / 1. *)
Lemma counter_rate_is_not_sum_of_values :
  let cfg := mkConfig 1 0 0 1000000000 "s" in
  let sts := [mkStat "hits" "c" 0.5; mkStat "hits" "c" 0.5] in
  Stats.named "s.hits"
    (Stats.queued (Stats.statWorker cfg 0 (Stats.interval sts) Stats.init))
  <> [mkDataPoint "s.hits" 0 ((0.5 + 0.5) / Seconds (StatFlush cfg))%float
                  None].
Proof.
  intros cfg sts H.
  apply (f_equal (fun l => match l with
                           | [dp] => Prim2SF (Value dp)
                           | _ => S754_nan
                           end)) in H.
  vm_compute in H. discriminate.
Qed.

(** C6, amended: when a counter name [c] received the values [v1 .. vn]
    (n >= 1) during an interval, the counter loop of the flush queues one
    data point named [<prefix>.c], and its value is
    [float64(int64(v1) + ... + int64(vn)) / StatFlush.Seconds()]: each
    value is truncated to an [int64] before it is added. *)
Theorem counter_rate_of_truncated_sum (cfg : Config) (now : Z)
    (sts : list trStat) (c : string) :
  Stats.observed "c" c sts <> [] ->
  let m := Stats.st_maps
             (Stats.statWorker cfg now (Stats.StCh ∘ Some <$> sts)
                               Stats.init) in
  let total := foldl (fun acc v => Int64.add acc (Float64.to_int64 v)) 0
                     (Stats.observed "c" c sts) in
  Stats.queued (Stats.statWorker cfg now (Stats.interval sts) Stats.init)
  = Stats.flushCounts cfg now m ++ Stats.flushGauges cfg now m
    ++ Stats.flushTimers cfg now m
  /\ Stats.named (StatsNamePrefix cfg +:+ "." +:+ c)
                 (Stats.flushCounts cfg now m)
     = [mkDataPoint (StatsNamePrefix cfg +:+ "." +:+ c) now
                    (Float64.of_int total / Seconds (StatFlush cfg))%float
                    None].
Proof.
  intros Hne m total. split; [apply statWorker_interval|].
  assert (Hc : Stats.counts m !! c = Some total).
  { subst m total. rewrite statWorker_stats_maps, counts_after.
    destruct (Stats.observed "c" c sts); [done|].
    cbn [Stats.init Stats.st_maps Stats.empty Stats.counts].
    by rewrite lookup_empty. }
  by rewrite (named_flushCounts cfg now m c total Hc).
Qed.

(** Counter events 2.5, 3 and 5.75 for [hits], a gauge in between: the
    sum of the truncated values is 10. *)
Lemma counter_rate_of_truncated_sum_witness :
  let cfg := mkConfig 1 0 0 1000000000 "s" in
  let sts := [mkStat "hits" "c" 2.5; mkStat "cpu" "g" 0.25;
              mkStat "hits" "c" 3; mkStat "hits" "c" 5.75]%float in
  Stats.observed "c" "hits" sts <> []
  /\ Stats.named "s.hits"
       (Stats.flushCounts cfg 0
          (Stats.st_maps
             (Stats.statWorker cfg 0 (Stats.StCh ∘ Some <$> sts)
                               Stats.init)))
     = [mkDataPoint "s.hits" 0 10 None].
Proof.
  intros cfg sts.
  assert (Hne : Stats.observed "c" "hits" sts <> []) by (vm_compute; discriminate).
  split; [exact Hne|].
  exact (proj2 (counter_rate_of_truncated_sum cfg 0 sts "hits" Hne)).
Defined.

(** ** The copy request and the flush hand-off of [transceiver.go] *)

Lemma shard_nonneg W id :
  0 < W -> 0 <= id <= Int64.max_int -> shard W id = Done (id mod W).
Proof.
  intros HW Hid. unfold shard, Int64.rem.
  destruct (W =? 0) eqn:E; [lia|].
  rewrite Z.rem_mod_nonneg by lia. f_equal. apply wrap_id.
  pose proof (Z.mod_pos_bound id W HW).
  assert (id mod W <= id) by (apply Z.mod_le; lia).
  unfold Int64.in_range, Int64.min_int, Int64.max_int in *. lia.
Qed.

(** [requestDsCopy] never returns nil: the copy branch closes the reply
    channel only after it has sent the copy. *)
Lemma requestDsCopy_never_nil cfg t id :
  Transceiver.requestDsCopy cfg t id <> Done None.
Proof.
  unfold Transceiver.requestDsCopy.
  destruct (shard (Workers cfg) id) as [i| |]; cbn [obind]; [|done..].
  destruct (index (Transceiver.dsCopyChs t) i) as [c| |]; cbn [obind];
    [|done..].
  destruct (chan_send c _) as [c'| |]; cbn [obind]; [|done..].
  unfold Transceiver.copyBranch. cbn [dsId resp].
  destruct (Transceiver.dss t !! id) as [d|]; cbn; done.
Qed.

(** For an id of the registry, with the request channel of its shard open
    and not full, [requestDsCopy] returns the copy of the data source. *)
Lemma requestDsCopy_known cfg t id d c :
  Transceiver.dss t !! id = Some d ->
  0 < Workers cfg -> 0 <= id <= Int64.max_int ->
  index (Transceiver.dsCopyChs t) (id mod Workers cfg) = Done c ->
  ch_closed c = false -> ch_recv c = false ->
  (length (ch_buf c) < ch_cap c)%nat ->
  Transceiver.requestDsCopy cfg t id = Done (Some (mostlyCopy d)).
Proof.
  intros Hd HW Hid Hc Hcl Hrv Hroom. unfold Transceiver.requestDsCopy.
  rewrite shard_nonneg by done. cbn [obind]. rewrite Hc. cbn [obind].
  unfold chan_send at 1. rewrite Hcl, Hrv.
  apply Nat.ltb_lt in Hroom. rewrite Hroom. cbn [obind].
  unfold Transceiver.copyBranch. cbn [dsId resp]. rewrite Hd. done.
Qed.

(** For an id the registry does not know, the caller is never answered,
    whatever the state of the channels. *)
Lemma requestDsCopy_unknown cfg t id r :
  Transceiver.dss t !! id = None ->
  Transceiver.requestDsCopy cfg t id <> Done r.
Proof.
  intros Hd. unfold Transceiver.requestDsCopy.
  destruct (shard (Workers cfg) id) as [i| |]; cbn [obind]; [|done..].
  destruct (index (Transceiver.dsCopyChs t) i) as [c| |]; cbn [obind];
    [|done..].
  destruct (chan_send c _) as [c'| |]; cbn [obind]; [|done..].
  unfold Transceiver.copyBranch. cbn [dsId resp]. rewrite Hd. done.
Qed.

(** C2: with two workers and a registry that knows the id 1 only,
    [requestDsCopy(1)] returns the copy, and [requestDsCopy(42)] blocks for
    ever on the reply channel: the copy branch of the worker logs the
    unknown id and neither sends on that channel nor closes it. *)
Theorem requestDsCopy_unknown_id_blocks :
  let cfg := mkConfig 2 0 0 1000000000 "s" in
  let d1 := mkDataSource 1 "foo.bar" 100 [1; 2]%float in
  let t := Transceiver.startWorkers cfg
             (Transceiver.mkTransceiver {[ 1 := d1 ]} [] [] []) in
  Transceiver.requestDsCopy cfg t 1 = Done (Some d1)
  /\ Transceiver.requestDsCopy cfg t 42 = Blocked
  /\ Transceiver.copyBranch 0 t
       (mkCopyRequest 42 (Transceiver.parked (make_chan 0)))
     = Done (Transceiver.add_log (LogCopyLookup 0 42) t,
             Transceiver.parked (make_chan 0)).
Proof. vm_compute. repeat split; reflexivity. Qed.

(** C7 fails as stated: after [startFlushers], with no flusher at its
    receive (each is busy in the storage backend, say), [flushDs] blocks on
    its send; nothing is enqueued and the live data source is untouched. *)
Lemma flushDs_blocks_until_flusher_receives :
  let cfg := mkConfig 2 0 0 1000000000 "s" in
  let d1 := mkDataSource 1 "foo.bar" 100 [1; 2]%float in
  let t := Transceiver.startFlushers cfg
             (Transceiver.mkTransceiver {[ 1 := d1 ]} [] [] []) in
  Transceiver.flushDs cfg 500 t 1 = Blocked.
Proof. vm_compute. reflexivity. Qed.

(** C7, amended: [flushDs(ds)] sends a [mostlyCopy] of the data source,
    which still carries the [LastFlushRT] of the flush before, on the
    unbuffered [flusherChs[ds.Id mod N]]; the send blocks until the flusher
    of that shard receives. Once it has gone through, the live data source
    gets the current instant as [LastFlushRT] and its archive buffers are
    cleared, the snapshot handed over keeping them. *)
Theorem flushDs_sends_copy_then_stamps_and_clears
    (cfg : Config) (now : Z) (t : Transceiver.trTransceiver) (p : Z)
    (d : trDataSource) (c : chan trDataSource) :
  Transceiver.dss t !! p = Some d ->
  0 < Workers cfg -> 0 <= Id d <= Int64.max_int ->
  index (Transceiver.flusherChs t) (Id d mod Workers cfg) = Done c ->
  ch_cap c = 0%nat -> ch_closed c = false ->
  Transceiver.flushDs cfg now t p
  = if ch_recv c
    then Done (Transceiver.mkTransceiver
                 (<[p := mkDataSource (Id d) (DsName d) now []]>
                    (Transceiver.dss t))
                 (set_index (Transceiver.flusherChs t) (Id d mod Workers cfg)
                    (mkChan 0%nat (ch_buf c) true
                       (ch_taken c
                          ++ [mkDataSource (Id d) (DsName d) (LastFlushRT d)
                                           (RRAs d)])
                       false))
                 (Transceiver.dsCopyChs t) (Transceiver.log t))
    else Blocked.
Proof.
  intros Hd HW Hid Hc Hcap Hcl. unfold Transceiver.flushDs.
  rewrite Hd, shard_nonneg by done. cbn [obind]. rewrite Hc. cbn [obind].
  unfold chan_send. rewrite Hcl, Hcap.
  destruct (ch_recv c); [done|].
  by destruct (ch_buf c).
Qed.

(** Two flushers at their receive, the data source 1 flushed at the
    instant 500. *)
Lemma flushDs_sends_copy_then_stamps_and_clears_witness :
  let cfg := mkConfig 2 0 0 1000000000 "s" in
  let d1 := mkDataSource 1 "foo.bar" 100 [1; 2]%float in
  let c := Transceiver.parked (make_chan 0) in
  let t := Transceiver.mkTransceiver {[ 1 := d1 ]} [c; c] [] [] in
  Transceiver.flushDs cfg 500 t 1
  = Done (Transceiver.mkTransceiver
            {[ 1 := mkDataSource 1 "foo.bar" 500 [] ]}
            [c; mkChan 0%nat [] true [d1] false] [] []).
Proof.
  intros cfg d1 c t.
  rewrite (flushDs_sends_copy_then_stamps_and_clears cfg 500 t 1 d1 c).
  - vm_compute. reflexivity.
  - reflexivity.
  - reflexivity.
  - vm_compute. split; discriminate.
  - reflexivity.
  - reflexivity.
  - reflexivity.
Defined.

(** ** The workers *)

(** C3: in [receiver/worker.go] a closed inbox makes [worker] return at
    once, whatever [recent] holds: no pass over [recent], no call of
    [flushDs]. With the data source 1 cached and [recent = {1}], nothing is
    flushed, while the worker of [transceiver.go] on the same data sends
    the snapshot of 1 to its flusher and empties [recent]. *)
Theorem receiver_worker_returns_without_final_pass :
  (forall sbf pidp debug ident minCacheDur maxCacheDur maxPoints rest s,
      Receiver.worker sbf pidp debug ident minCacheDur maxCacheDur maxPoints
                      (Receiver.WorkerCh None :: rest) s
      = Done s)
  /\ (let d1 := mkDataSource 1 "foo.bar" 100 [1; 2]%float in
      let s := Receiver.mkState {[ 1 := d1 ]} {[ 1 ]} [] [] in
      Receiver.worker (shouldBeFlushed_contract 150)
                      (fun d v _ => process_append v d) false "worker" 10 100 5
                      [Receiver.WorkerCh None] s
      = Done (Receiver.mkState {[ 1 := d1 ]} {[ 1 ]} [] []))
  /\ (let cfg := mkConfig 1 10 100 1000000000 "s" in
      let d1 := mkDataSource 1 "foo.bar" 100 [1; 2]%float in
      let c := Transceiver.parked (make_chan 0) in
      let w := Transceiver.mkW
                 (Transceiver.mkTransceiver {[ 1 := d1 ]} [c] [] [])
                 {[ 1 ]} in
      Transceiver.worker (fun now d => shouldBeFlushed_contract now d 5 10 100)
                         (fun dp d => process_append (Value dp) d)
                         cfg 150 0 [Transceiver.WorkerCh None] w
      = Done (Transceiver.mkW
                (Transceiver.mkTransceiver
                   {[ 1 := mkDataSource 1 "foo.bar" 150 [] ]}
                   [mkChan 0%nat [] true [d1] false] [] [])
                ∅)).
Proof.
  split; [|split].
  - reflexivity.
  - vm_compute. reflexivity.
  - vm_compute. reflexivity.
Qed.

(** The decision of the periodic pass for a cached data source: the
    third argument of [shouldBeFlushed] is [minCacheDur] again. *)
Lemma periodicBody_decision sbf debug ident s minCacheDur maxCacheDur
    maxPoints k d :
  Receiver.dss s !! k = Some d ->
  Receiver.periodicBody sbf debug ident minCacheDur maxCacheDur maxPoints k s
  = if sbf d maxPoints minCacheDur minCacheDur
    then Done (Receiver.mkState (Receiver.dss s)
                 (Receiver.recent s ∖ {[Id d]})
                 (Receiver.flushed s ++ [(k, false)])
                 (Receiver.log s ++ Receiver.debug_log debug
                    (LogReceiverPeriodic ident (Id d))))
    else Done s.
Proof. intros Hd. unfold Receiver.periodicBody. by rewrite Hd. Qed.

(** C5: the periodic pass of [receiver/worker.go] calls
    [shouldBeFlushed(maxPoints, minCacheDur, minCacheDur)]: its result does
    not depend on [maxCacheDur]. For a data source flushed 50ns ago that
    holds 2 slots, with [maxPoints = 5], [minCacheDur = 10] and
    [maxCacheDur = 100], the contract with [(5, 10, 100)] says no flush and
    the incoming-point path does not flush, but the periodic pass does. *)
Theorem receiver_periodic_flush_passes_minCacheDur_twice :
  (forall sbf debug ident s minCacheDur maxCacheDur maxCacheDur' maxPoints,
      Receiver.workerPeriodicFlush sbf debug ident s minCacheDur maxCacheDur
                                   maxPoints
      = Receiver.workerPeriodicFlush sbf debug ident s minCacheDur
                                     maxCacheDur' maxPoints)
  /\ (let d1 := mkDataSource 1 "foo.bar" 100 [1; 2]%float in
      let s := Receiver.mkState {[ 1 := d1 ]} {[ 1 ]} [] [] in
      let sbf := shouldBeFlushed_contract 150 in
      sbf d1 5 10 100 = false
      /\ Receiver.workerPeriodicFlush sbf false "worker" s 10 100 5
         = Done (Receiver.mkState {[ 1 := d1 ]} ∅ [(1, false)] [])
      /\ Receiver.worker_iter sbf (fun d _ _ => Some d) false "worker"
           10 100 5 (Receiver.WorkerCh (Some (Receiver.mkIncoming 3 150 1))) s
         = Done (s, false)).
Proof.
  split.
  - reflexivity.
  - vm_compute. repeat split; reflexivity.
Qed.

(** ** Loops over [recent] *)

Section RangeLoopFacts.

Context {S : Type} (live : S -> gset Z) (body : Z -> S -> outcome S).

(** A loop whose body, under an invariant [I], always completes and only
    deletes keys: it completes, [I] holds after it, and a property [Q]
    that the body establishes for the key it leaves in the map and that no
    later turn breaks holds of every key that is left. *)
Lemma rangeLoop_post (I : S -> Prop) (Q : Z -> S -> Prop) :
  (forall k s, I s -> k ∈ live s ->
     exists s', body k s = Done s' /\ I s' /\ live s' ⊆ live s
                /\ (k ∈ live s' -> Q k s')
                /\ (forall j, Q j s -> Q j s')) ->
  forall keys s, I s ->
    exists s', rangeLoop live body keys s = Done s' /\ I s'
               /\ live s' ⊆ live s
               /\ (forall j, Q j s -> Q j s')
               /\ (forall k, k ∈ keys -> k ∈ live s' -> Q k s').
Proof.
  intros Hbody. induction keys as [|k ks IH]; intros s HI; cbn [rangeLoop].
  - exists s. repeat split; try done. intros k Hk. by apply elem_of_nil in Hk.
  - destruct (decide (k ∈ live s)) as [Hk|Hk].
    + destruct (Hbody k s HI Hk) as (s1 & -> & HI1 & Hsub1 & HQk & HQ1).
      cbn [obind].
      destruct (IH s1 HI1) as (s' & -> & HI' & Hsub' & HQ' & Hks).
      exists s'. repeat split; [done|set_solver|auto|].
      intros j Hj Hlive. apply elem_of_cons in Hj as [->|Hj]; [|auto].
      apply HQ', HQk. set_solver.
    + destruct (IH s HI) as (s' & -> & HI' & Hsub' & HQ' & Hks).
      exists s'. repeat split; [done..|].
      intros j Hj Hlive. apply elem_of_cons in Hj as [->|Hj]; [|auto].
      set_solver.
Qed.

End RangeLoopFacts.

(** [receiver/worker.go]: the periodic pass completes, leaves the cache as
    it is, and no id left in [recent] is unknown to the cache. *)
Lemma receiver_periodic_pass_leaves_no_dangling_id sbf debug ident s
    minCacheDur maxCacheDur maxPoints :
  exists s',
    Receiver.workerPeriodicFlush sbf debug ident s minCacheDur maxCacheDur
                                 maxPoints = Done s'
    /\ Receiver.dss s' = Receiver.dss s
    /\ Receiver.recent s' ⊆ Receiver.recent s
    /\ forall k, k ∈ Receiver.recent s' -> is_Some (Receiver.dss s !! k).
Proof.
  unfold Receiver.workerPeriodicFlush.
  destruct (rangeLoop_post Receiver.recent
              (Receiver.periodicBody sbf debug ident minCacheDur maxCacheDur
                                     maxPoints)
              (fun s' => Receiver.dss s' = Receiver.dss s)
              (fun k _ => is_Some (Receiver.dss s !! k)))
    with (keys := elements (Receiver.recent s)) (s := s)
    as (s' & Hrun & Hdss & Hsub & _ & Hpost); [|done|].
  - intros k s1 Hdss Hk. unfold Receiver.periodicBody.
    destruct (Receiver.dss s1 !! k) as [d|] eqn:Hd.
    + destruct (sbf d maxPoints minCacheDur minCacheDur).
      * eexists; split; [done|]. cbn.
        repeat split; [done|by apply subseteq_difference_l| |done].
        intros _. rewrite <- Hdss, Hd. by eexists.
      * eexists; split; [done|].
        repeat split; [done..| |done].
        intros _. rewrite <- Hdss, Hd. by eexists.
    + eexists; split; [done|]. cbn.
      repeat split; [done|by apply subseteq_difference_l| |done].
      intros [_ Hk']%elem_of_difference. by destruct Hk'; apply elem_of_singleton.
  - exists s'. repeat split; [done..|].
    intros k Hk. apply Hpost; [|done].
    apply elem_of_elements. set_solver.
Qed.

(** ** The passes of the worker of [transceiver.go] *)

(** With the flushers at their receive, [flushDs] completes: the snapshot
    reaches the flusher of the shard and only the flushed entry of the
    registry changes. *)
Lemma flushDs_ready cfg now t k d :
  registry_ok (Transceiver.dss t) -> flushers_ready cfg t ->
  Transceiver.dss t !! k = Some d ->
  exists t',
    Transceiver.flushDs cfg now t k = Done t'
    /\ Transceiver.dss t'
       = <[k := clearRRAs (set_LastFlushRT now d)]> (Transceiver.dss t)
    /\ registry_ok (Transceiver.dss t')
    /\ flushers_ready cfg t'
    /\ delivered cfg t' k d
    /\ (forall j e, delivered cfg t j e -> delivered cfg t' j e).
Proof.
  intros Hok (HW & Hlen & Hall) Hd.
  destruct (Hok k d Hd) as [HId Hk].
  assert (Hm : 0 <= k mod Workers cfg < Workers cfg)
    by (apply Z.mod_pos_bound; lia).
  assert (Hlt : (Z.to_nat (k mod Workers cfg)
                 < length (Transceiver.flusherChs t))%nat) by lia.
  destruct (lookup_lt_is_Some_2 _ _ Hlt) as [c Hc].
  assert (Hcok : ch_recv c = true /\ ch_closed c = false).
  { eapply Forall_lookup_1 in Hall; [exact Hall|exact Hc]. }
  destruct Hcok as [Hrv Hcl].
  unfold Transceiver.flushDs. rewrite Hd, HId.
  rewrite shard_nonneg by done. cbn [obind].
  unfold index. destruct (k mod Workers cfg <? 0) eqn:E; [lia|].
  rewrite Hc. cbn [obind]. unfold chan_send. rewrite Hcl, Hrv. cbn [obind].
  eexists; split; [reflexivity|]. cbn [Transceiver.dss Transceiver.flusherChs].
  split; [done|]. split; [|split; [|split]].
  - intros j e Hj. destruct (decide (j = k)) as [->|Hne].
    + rewrite lookup_insert_eq in Hj. injection Hj as <-. cbn. done.
    + rewrite lookup_insert_ne in Hj by done. by apply Hok.
  - unfold flushers_ready, set_index; cbn [Transceiver.flusherChs].
    rewrite length_insert. split; [done|]. split; [done|].
    apply Forall_insert; [done|]. by cbn.
  - unfold delivered, set_index; cbn [Transceiver.flusherChs].
    eexists. rewrite list_lookup_insert_eq by done.
    split; [reflexivity|]. cbn [ch_taken].
    apply elem_of_app. right. apply list_elem_of_singleton. done.
  - intros j e (c0 & Hc0 & Hin).
    unfold delivered, set_index; cbn [Transceiver.flusherChs].
    destruct (decide (Z.to_nat (j mod Workers cfg)
                      = Z.to_nat (k mod Workers cfg))) as [Heq|Hne].
    + rewrite Heq in *. rewrite list_lookup_insert_eq by done.
      eexists; split; [reflexivity|]. cbn [ch_taken].
      assert (c0 = c) by congruence. subst c0.
      apply elem_of_app. by left.
    + rewrite list_lookup_insert_ne by done. by exists c0.
Qed.

(** The pass over [recent], periodic or final: it completes; an id the
    registry does not know stays in [recent]; and on the final pass
    ([flushEverything]) every other id leaves [recent] and the snapshot of
    its data source has reached its flusher. *)
Lemma transceiver_pass sbf cfg now id fe w :
  registry_ok (Transceiver.dss (Transceiver.tr w)) ->
  flushers_ready cfg (Transceiver.tr w) ->
  exists w',
    Transceiver.flushRecent sbf cfg now id fe w = Done w'
    /\ Transceiver.recent w' ⊆ Transceiver.recent w
    /\ (forall k, k ∈ Transceiver.recent w ->
          Transceiver.dss (Transceiver.tr w) !! k = None ->
          k ∈ Transceiver.recent w')
    /\ (fe = true ->
        (forall k, k ∈ Transceiver.recent w' ->
           Transceiver.dss (Transceiver.tr w) !! k = None)
        /\ (forall k d, k ∈ Transceiver.recent w ->
              Transceiver.dss (Transceiver.tr w) !! k = Some d ->
              delivered cfg (Transceiver.tr w') k d)).
Proof.
  intros Hok Hready. unfold Transceiver.flushRecent.
  set (dss0 := Transceiver.dss (Transceiver.tr w)).
  set (I := fun w' : Transceiver.wstate =>
    registry_ok (Transceiver.dss (Transceiver.tr w'))
    /\ flushers_ready cfg (Transceiver.tr w')
    /\ (forall j, Transceiver.dss (Transceiver.tr w') !! j = None
                  <-> dss0 !! j = None)
    /\ (forall j, j ∈ Transceiver.recent w -> dss0 !! j = None ->
                  j ∈ Transceiver.recent w')
    /\ (forall j d, j ∈ Transceiver.recent w -> dss0 !! j = Some d ->
          (j ∈ Transceiver.recent w'
           /\ Transceiver.dss (Transceiver.tr w') !! j = Some d)
          \/ delivered cfg (Transceiver.tr w') j d)).
  destruct (rangeLoop_post Transceiver.recent
              (Transceiver.flushBody sbf cfg now id fe) I
              (fun k _ => fe = true -> dss0 !! k = None))
    with (keys := elements (Transceiver.recent w)) (s := w)
    as (w' & Hrun & HI & Hsub & _ & Hpost).
  - intros k w1 (Hok1 & Hrdy1 & Hdom1 & Hstay1 & Hdel1) Hk.
    unfold Transceiver.flushBody.
    destruct (Transceiver.dss (Transceiver.tr w1) !! k) as [d|] eqn:Hd.
    + destruct (fe || sbf now d) eqn:Hfl.
      * destruct (flushDs_ready cfg now _ k d Hok1 Hrdy1 Hd)
          as (t' & Hf & Hdss' & Hok' & Hrdy' & Hdl & Hkeep).
        unfold Transceiver.flushAndForget. rewrite Hf. cbn [obind].
        destruct (Hok1 k d Hd) as [-> _].
        eexists; split; [reflexivity|].
        unfold I. cbn [Transceiver.tr Transceiver.recent].
        split; [|split; [by apply subseteq_difference_l|split; [|done]]].
        -- split; [done|]. split; [done|]. split; [|split].
           ++ intros j. rewrite Hdss'. destruct (decide (j = k)) as [->|Hne].
              ** rewrite lookup_insert_eq. rewrite <- Hdom1, Hd. done.
              ** rewrite lookup_insert_ne by done. apply Hdom1.
           ++ intros j Hj Hnone. apply elem_of_difference.
              split; [by apply Hstay1|].
              intros ->%elem_of_singleton.
              apply Hdom1 in Hnone. congruence.
           ++ intros j e Hj He.
              destruct (Hdel1 j e Hj He) as [[Hin Hje]|Hdone]; [|auto].
              destruct (decide (j = k)) as [->|Hne].
              ** right. assert (e = d) by congruence. by subst e.
              ** left. split.
                 --- apply elem_of_difference. split; [done|].
                     by intros ?%elem_of_singleton.
                 --- rewrite Hdss'. by rewrite lookup_insert_ne.
        -- intros [_ Hn]%elem_of_difference.
           by destruct Hn; apply elem_of_singleton.
      * exists w1. split; [done|].
        split; [exact (conj Hok1 (conj Hrdy1 (conj Hdom1 (conj Hstay1 Hdel1))))|].
        split; [done|]. split; [|done].
        intros _ Hfe. subst fe. discriminate.
    + eexists; split; [reflexivity|].
      unfold I. cbn [Transceiver.tr Transceiver.recent Transceiver.add_log
                     Transceiver.dss Transceiver.flusherChs].
      split; [|split; [done|split; [|done]]].
      * exact (conj Hok1 (conj Hrdy1 (conj Hdom1 (conj Hstay1 Hdel1)))).
      * intros _ _. by apply Hdom1.
  - unfold I. split; [done|]. split; [done|]. split; [done|].
    split; [done|]. intros j e Hj He. by left.
  - destruct HI as (_ & _ & _ & Hstay & Hdel).
    exists w'. split; [done|]. split; [done|]. split; [done|].
    intros Hfe. split.
    + intros k Hk. apply Hpost; [|done..].
      apply elem_of_elements. by apply Hsub.
    + intros k d Hk Hd.
      destruct (Hdel k d Hk Hd) as [[Hin _]|Hdone]; [|done].
      assert (dss0 !! k = None).
      { apply Hpost; [|done..]. by apply elem_of_elements. }
      congruence.
Qed.

(** [transceiver.go] on a closed inbox: the final pass, then the worker
    leaves its loop; what is left in [recent] is unknown to the registry. *)
Lemma transceiver_worker_final_pass sbf pr cfg now id rest w :
  registry_ok (Transceiver.dss (Transceiver.tr w)) ->
  flushers_ready cfg (Transceiver.tr w) ->
  exists w',
    Transceiver.worker sbf pr cfg now id (Transceiver.WorkerCh None :: rest) w
    = Done w'
    /\ (forall k, k ∈ Transceiver.recent w' <->
          k ∈ Transceiver.recent w
          /\ Transceiver.dss (Transceiver.tr w) !! k = None)
    /\ (forall k d, k ∈ Transceiver.recent w ->
          Transceiver.dss (Transceiver.tr w) !! k = Some d ->
          delivered cfg (Transceiver.tr w') k d).
Proof.
  intros Hok Hrdy.
  destruct (transceiver_pass sbf cfg now id true w Hok Hrdy)
    as (w' & Hrun & Hsub & Hstay & Hfin).
  destruct (Hfin eq_refl) as [Hnone Hdel].
  exists w'. cbn [Transceiver.worker Transceiver.worker_iter].
  rewrite Hrun. cbn. split; [done|]. split; [|done].
  intros k. split.
  - intros Hk. split; [by apply Hsub|by apply Hnone].
  - intros [Hk Hn]. by apply Hstay.
Qed.

(** ** No dangling id in [recent] *)









(** ** Scenarios of the specification *)

(** S1: three counter events 2, 3 and 5 for [hits] within one second give
    the single data point [s.hits = 10], and the maps are empty after. *)
Example scenario_single_counter :
  let cfg := mkConfig 1 0 0 1000000000 "s" in
  let sts := [mkStat "hits" "c" 2; mkStat "hits" "c" 3;
              mkStat "hits" "c" 5]%float in
  let s := Stats.statWorker cfg 0 (Stats.interval sts) Stats.init in
  Stats.queued s = [mkDataPoint "s.hits" 0 10 None]
  /\ Stats.st_maps s = Stats.empty.
Proof. vm_compute. split; reflexivity. Qed.

(** S3: the gauge keeps the last value. *)
Example scenario_gauge_overwrite :
  let cfg := mkConfig 1 0 0 1000000000 "s" in
  let sts := [mkStat "cpu" "g" 0.5; mkStat "cpu" "g" 0.75;
              mkStat "cpu" "g" 0.25]%float in
  Stats.queued (Stats.statWorker cfg 0 (Stats.interval sts) Stats.init)
  = [mkDataPoint "s.gauges.cpu" 0 0.25 None].
Proof. vm_compute. reflexivity. Qed.

(** S6: an unknown metric kind queues nothing and is logged. *)
Example scenario_unknown_metric :
  let cfg := mkConfig 1 0 0 1000000000 "s" in
  let s := Stats.statWorker cfg 0 (Stats.interval [mkStat "x" "q" 1]) Stats.init in
  Stats.queued s = [] /\ Stats.st_log s = [LogInvalidMetric "q"]
  /\ Stats.returned s = false.
Proof. vm_compute. repeat split; reflexivity. Qed.

(** The counter [gauges.cpu] and the gauge [cpu] are queued under the same
    name: a counter's point is the only one of its name among those of the
    counter loop, not among all the points of a flush. *)
Example counter_and_gauge_share_a_name :
  let cfg := mkConfig 1 0 0 1000000000 "s" in
  let sts := [mkStat "gauges.cpu" "c" 4; mkStat "cpu" "g" 0.5]%float in
  Stats.named "s.gauges.cpu"
    (Stats.queued (Stats.statWorker cfg 0 (Stats.interval sts) Stats.init))
  = [mkDataPoint "s.gauges.cpu" 0 4 None;
     mkDataPoint "s.gauges.cpu" 0 0.5 None].
Proof. vm_compute. reflexivity. Qed.

(** * Further properties of the code *)

(** ** The stats aggregator, beyond the counters *)

Lemma statWorker_app cfg now l1 l2 s :
  Stats.returned (Stats.statWorker cfg now l1 s) = false ->
  Stats.statWorker cfg now (l1 ++ l2) s
  = Stats.statWorker cfg now l2 (Stats.statWorker cfg now l1 s).
Proof.
  revert s. induction l1 as [|a l1 IH]; intros s Hr; [done|].
  cbn [app Stats.statWorker] in *.
  destruct (Stats.returned (Stats.statWorker_iter cfg now a s)) eqn:E.
  - by rewrite E in Hr.
  - by apply IH.
Qed.

Lemma statWorker_stats_returned cfg now sts s :
  Stats.returned s = false ->
  Stats.returned
    (Stats.statWorker cfg now (Stats.StCh ∘ Some <$> sts) s) = false.
Proof.
  revert s. induction sts as [|st sts IH]; intros s Hs; [done|].
  cbn [fmap list_fmap Stats.statWorker compose].
  assert (E : Stats.returned
                (Stats.statWorker_iter cfg now (Stats.StCh (Some st)) s)
              = false).
  { unfold Stats.statWorker_iter.
    by destruct (Stats.recvStat (Stats.st_maps s) st). }
  rewrite E. by apply IH.
Qed.

Lemma statWorker_stats_log cfg now sts s :
  Stats.st_log (Stats.statWorker cfg now (Stats.StCh ∘ Some <$> sts) s)
  = Stats.st_log s
    ++ (LogInvalidMetric ∘ metric
          <$> filter (fun st => known_metric st = false) sts).
Proof.
  rewrite statWorker_stats. revert s.
  induction sts as [|st sts IH]; intros s; [by rewrite app_nil_r|].
  cbn [foldl]. rewrite IH. clear IH.
  unfold Stats.statWorker_iter, Stats.recvStat, known_metric.
  repeat case_decide; cbn [Stats.st_log].
  - rewrite filter_cons_False; [by rewrite app_nil_r|].
    rewrite (bool_decide_eq_true_2 (metric st = "c")) by done. done.
  - rewrite filter_cons_False; [by rewrite app_nil_r|].
    rewrite (bool_decide_eq_true_2 (metric st = "g")) by done.
    rewrite orb_true_r. done.
  - rewrite filter_cons_False; [by rewrite app_nil_r|].
    rewrite (bool_decide_eq_true_2 (metric st = "ms")) by done.
    rewrite orb_true_r. done.
  - rewrite filter_cons_True.
    + cbn [fmap list_fmap compose]. by rewrite <- app_assoc.
    + by rewrite !bool_decide_eq_false_2.
Qed.

(** The output of [statWorker] is appended to what was queued and logged
    before. *)
Lemma statWorker_frame cfg now sels m q l :
  let r := Stats.statWorker cfg now sels (Stats.mkState m [] [] false) in
  Stats.statWorker cfg now sels (Stats.mkState m q l false)
  = Stats.mkState (Stats.st_maps r) (q ++ Stats.queued r)
                  (l ++ Stats.st_log r)
                  (match sels with [] => false | _ => Stats.returned r end).
Proof.
  cbn zeta. revert m q l. induction sels as [|sel sels IH]; intros m q l.
  - cbn. by rewrite !app_nil_r.
  - cbn [Stats.statWorker].
    destruct sel as [|[st|]];
      cbn [Stats.statWorker_iter Stats.st_maps Stats.queued Stats.st_log
           Stats.flushStats Stats.returned].
    + rewrite IH. rewrite (IH _ ([] ++ _) []).
      cbn [app]. destruct sels; cbn; by rewrite ?app_assoc, ?app_nil_r.
    + destruct (Stats.recvStat m st) as [m' l'].
      cbn [Stats.returned]. rewrite IH. rewrite (IH _ [] ([] ++ l')).
      cbn [app]. destruct sels; cbn; by rewrite ?app_assoc, ?app_nil_r.
    + cbn. by rewrite !app_nil_r.
Qed.

(** The gauge of [c] after the stats [sts]: the last value [c] received as
    a gauge. *)
Lemma gauges_after c sts m :
  Stats.gauges (foldl (fun m st => (Stats.recvStat m st).1) m sts) !! c
  = match last (Stats.observed "g" c sts) with
    | Some v => Some v
    | None => Stats.gauges m !! c
    end.
Proof.
  revert m. induction sts as [|st sts IH]; intros m; [done|].
  cbn [foldl]. rewrite IH. clear IH. unfold Stats.observed.
  destruct (decide (metric st = "g" /\ name st = c)) as [[Hm Hn]|Hno].
  - rewrite filter_cons_True by done. cbn [fmap list_fmap].
    rewrite last_cons.
    destruct (last _) as [v|]; [done|].
    unfold Stats.recvStat. rewrite Hm.
    rewrite decide_False by done. rewrite decide_True by done.
    cbn [fst Stats.gauges]. by rewrite Hn, lookup_insert_eq.
  - rewrite filter_cons_False by done.
    destruct (last _) as [v|]; [done|].
    unfold Stats.recvStat. repeat case_decide; cbn [fst Stats.gauges];
      try done.
    assert (name st <> c) by (intros ?; apply Hno; done).
    by rewrite lookup_insert_ne.
Qed.

(** The points of a loop of [flushStats] over a map, by name. *)
Lemma named_fmap_key {V} (f : string * V -> trDataPoint)
    (nm : string -> string) (m : gmap string V) c v :
  (forall e, Name (f e) = nm e.1) ->
  (forall a b, nm a = nm b -> a = b) ->
  m !! c = Some v ->
  Stats.named (nm c) (f <$> map_to_list m) = [f (c, v)].
Proof.
  intros Hname Hinj Hm. unfold Stats.named.
  assert (Hf : forall l : list (string * V),
             filter (fun dp => Name dp = nm c) (f <$> l)
             = f <$> filter (fun e => e.1 = c) l).
  { induction l as [|[k x] l IH]; [done|].
    cbn [fmap list_fmap].
    destruct (decide (k = c)) as [->|Hne].
    - rewrite !filter_cons_True; [|done|by rewrite Hname].
      cbn [fmap list_fmap]. f_equal. apply IH.
    - rewrite !filter_cons_False; [apply IH|by cbn|].
      rewrite Hname. cbn. intros H. by apply Hne, Hinj. }
  rewrite Hf, (filter_key _ _ _ Hm). done.
Qed.

(** X1: a gauge is last-write-wins. When a name [c] received gauge values
    during an interval, the last of them being [v], the gauge loop of the
    flush queues one data point named [<prefix>.gauges.c], of value [v]. *)
Theorem gauge_last_write_wins (cfg : Config) (now : Z) (sts : list trStat)
    (c : string) (v : float) :
  last (Stats.observed "g" c sts) = Some v ->
  let m := Stats.st_maps
             (Stats.statWorker cfg now (Stats.StCh ∘ Some <$> sts)
                               Stats.init) in
  Stats.named (StatsNamePrefix cfg +:+ ".gauges." +:+ c)
              (Stats.flushGauges cfg now m)
  = [mkDataPoint (StatsNamePrefix cfg +:+ ".gauges." +:+ c) now v None].
Proof.
  intros Hlast m.
  assert (Hg : Stats.gauges m !! c = Some v).
  { subst m. by rewrite statWorker_stats_maps, gauges_after, Hlast. }
  unfold Stats.flushGauges.
  rewrite (named_fmap_key (Stats.flushGauge cfg now)
             (fun a => StatsNamePrefix cfg +:+ ".gauges." +:+ a)
             (Stats.gauges m) c v); [done|done| |done].
  intros a b H.
  by apply (inj (String.app ".gauges.")),
           (inj (String.app (StatsNamePrefix cfg))).
Qed.

(** Three gauge events for [cpu], a counter in between: 0.25 is kept. *)
Lemma gauge_last_write_wins_witness :
  let cfg := mkConfig 1 0 0 1000000000 "s" in
  let sts := [mkStat "cpu" "g" 0.5; mkStat "hits" "c" 2;
              mkStat "cpu" "g" 0.75; mkStat "cpu" "g" 0.25]%float in
  last (Stats.observed "g" "cpu" sts) = Some 0.25%float
  /\ Stats.named "s.gauges.cpu"
       (Stats.flushGauges cfg 0
          (Stats.st_maps
             (Stats.statWorker cfg 0 (Stats.StCh ∘ Some <$> sts)
                               Stats.init)))
     = [mkDataPoint "s.gauges.cpu" 0 0.25 None].
Proof.
  intros cfg sts.
  assert (Hl : last (Stats.observed "g" "cpu" sts) = Some 0.25%float)
    by (vm_compute; reflexivity).
  split; [exact Hl|].
  exact (gauge_last_write_wins cfg 0 sts "cpu" 0.25%float Hl).
Defined.

(** Every timer list holds the four zeros of its creation and at least one
    value. *)
Lemma timers_at_least_five sts m :
  map_Forall (fun _ l => (5 <= length l)%nat) (Stats.timers m) ->
  map_Forall (fun _ l => (5 <= length l)%nat)
    (Stats.timers (foldl (fun m st => (Stats.recvStat m st).1) m sts)).
Proof.
  revert m. induction sts as [|st sts IH]; intros m Hm; [done|].
  cbn [foldl]. apply IH. clear IH.
  unfold Stats.recvStat. repeat case_decide; cbn [fst Stats.timers]; try done.
  destruct (Stats.timers m !! name st) as [l|] eqn:E.
  - rewrite E. cbn [default]. apply map_Forall_insert_2; [|done].
    rewrite length_app. cbn. specialize (Hm _ _ E). cbn in Hm. lia.
  - rewrite lookup_insert_eq. cbn [default].
    rewrite insert_insert_eq. by apply map_Forall_insert_2.
Qed.

Lemma flushTimer_five cfg now c l :
  (5 <= length l)%nat -> length (Stats.flushTimer cfg now (c, l)) = 5%nat.
Proof.
  intros Hl. unfold Stats.flushTimer. cbn [fst snd].
  destruct l as [|t0 rest]; [cbn in Hl; lia|].
  by destruct (Stats.summary t0 rest) as [[lo up] sum].
Qed.

(** X2: the number of data points of a flush. After any stats received
    from fresh maps, the flush queues one point per counter name, one per
    gauge name and five per timer name: a timer list is never empty, so the
    case of a lone [.count] does not occur. *)
Theorem flush_queues_one_one_five (cfg : Config) (now : Z)
    (sts : list trStat) :
  let m := Stats.st_maps
             (Stats.statWorker cfg now (Stats.StCh ∘ Some <$> sts)
                               Stats.init) in
  length (Stats.queued
            (Stats.statWorker cfg now (Stats.interval sts) Stats.init))
  = (size (Stats.counts m) + size (Stats.gauges m)
     + 5 * size (Stats.timers m))%nat.
Proof.
  intros m. rewrite statWorker_interval. fold m.
  rewrite !length_app. unfold Stats.flushCounts, Stats.flushGauges.
  rewrite !length_fmap, !length_map_to_list.
  rewrite Nat.add_assoc. f_equal.
  assert (Hall : map_Forall (fun _ l => (5 <= length l)%nat)
                            (Stats.timers m)).
  { subst m. rewrite statWorker_stats_maps.
    apply timers_at_least_five. cbn. apply map_Forall_empty. }
  unfold Stats.flushTimers.
  rewrite <- (length_map_to_list (Stats.timers m)).
  apply map_Forall_to_list in Hall.
  induction (map_to_list (Stats.timers m)) as [|[c l] rest IH]; [done|].
  apply Forall_cons in Hall as [Hl Hall].
  specialize (IH Hall). pose proof (flushTimer_five cfg now c l Hl) as H5.
  rewrite fmap_cons.
  change (length (Stats.flushTimer cfg now (c, l)
                  ++ mjoin (Stats.flushTimer cfg now <$> rest))
          = (5 * S (length rest))%nat).
  rewrite length_app. lia.
Qed.

(** X3: the five points of a timer. When a name [c] received the timer
    values [L] (at least one) during an interval, the flush queues for it,
    in a row, [.count], [.lower], [.upper], [.sum] and [.mean] computed
    over the list [0, 0, 0, 0] followed by [L]: the count is [|L| + 4]. *)
Theorem timer_points_over_presized_list (cfg : Config) (now : Z)
    (sts : list trStat) (c : string) :
  Stats.observed "ms" c sts <> [] ->
  let L := Stats.observed "ms" c sts in
  let m := Stats.st_maps
             (Stats.statWorker cfg now (Stats.StCh ∘ Some <$> sts)
                               Stats.init) in
  let base := StatsNamePrefix cfg +:+ ".timers." +:+ c in
  let n := Float64.of_int (Z.of_nat (4 + length L)) in
  let lus := Stats.summary 0%float ([0; 0; 0]%float ++ L) in
  exists pre post,
    Stats.flushTimers cfg now m
    = pre
      ++ [ mkDataPoint (base +:+ ".count") now n None;
           mkDataPoint (base +:+ ".lower") now lus.1.1 None;
           mkDataPoint (base +:+ ".upper") now lus.1.2 None;
           mkDataPoint (base +:+ ".sum") now lus.2 None;
           mkDataPoint (base +:+ ".mean") now (lus.2 / n)%float None ]
      ++ post.
Proof.
  intros Hne L m base n lus.
  assert (Hf : Stats.flushTimer cfg now (c, Stats.make_slice4 ++ L)
               = [ mkDataPoint (base +:+ ".count") now n None;
                   mkDataPoint (base +:+ ".lower") now lus.1.1 None;
                   mkDataPoint (base +:+ ".upper") now lus.1.2 None;
                   mkDataPoint (base +:+ ".sum") now lus.2 None;
                   mkDataPoint (base +:+ ".mean") now (lus.2 / n)%float
                               None ]).
  { unfold Stats.flushTimer. cbn [fst snd Stats.make_slice4 replicate app].
    fold base.
    change (Stats.summary 0%float (0%float :: 0%float :: 0%float :: L))
      with lus.
    destruct lus as [[lo up] sum]. cbn [fst snd]. done. }
  pose proof (timer_list_at_flush cfg now sts c Hne) as Ht. fold m L in Ht.
  apply elem_of_map_to_list in Ht.
  apply list_elem_of_split in Ht as (l1 & l2 & Hsplit).
  unfold Stats.flushTimers. rewrite Hsplit.
  rewrite fmap_app, fmap_cons, join_app.
  exists (mjoin (Stats.flushTimer cfg now <$> l1)),
         (mjoin (Stats.flushTimer cfg now <$> l2)).
  rewrite <- Hf. done.
Qed.

(** Timer events 10, 20, 30 for [rt]: the five points are those of the
    list [0, 0, 0, 0, 10, 20, 30]. *)
Lemma timer_points_over_presized_list_witness :
  let cfg := mkConfig 1 0 0 1000000000 "s" in
  let sts := [mkStat "rt" "ms" 10; mkStat "rt" "ms" 20;
              mkStat "rt" "ms" 30]%float in
  Stats.observed "ms" "rt" sts <> []
  /\ exists pre post,
       Stats.flushTimers cfg 0
         (Stats.st_maps
            (Stats.statWorker cfg 0 (Stats.StCh ∘ Some <$> sts) Stats.init))
       = pre
         ++ [ mkDataPoint "s.timers.rt.count" 0 7 None;
              mkDataPoint "s.timers.rt.lower" 0 0 None;
              mkDataPoint "s.timers.rt.upper" 0 30 None;
              mkDataPoint "s.timers.rt.sum" 0 60 None;
              mkDataPoint "s.timers.rt.mean" 0 (60 / 7) None ]%float
         ++ post.
Proof.
  intros cfg sts.
  assert (Hne : Stats.observed "ms" "rt" sts <> [])
    by (vm_compute; discriminate).
  split; [exact Hne|].
  exact (timer_points_over_presized_list cfg 0 sts "rt" Hne).
Defined.

Lemma interval_end cfg now sts s :
  Stats.returned s = false ->
  let r := Stats.statWorker cfg now (Stats.interval sts) s in
  Stats.st_maps r = Stats.empty /\ Stats.returned r = false.
Proof.
  intros Hs. cbn zeta. unfold Stats.interval.
  rewrite statWorker_app by by apply statWorker_stats_returned.
  cbn [Stats.statWorker Stats.statWorker_iter Stats.flushStats
       Stats.returned Stats.st_maps]. done.
Qed.

(** X4: intervals do not leak into each other. The data points queued over
    two intervals in a row are those of the first interval from fresh
    maps, followed by those of the second from fresh maps. *)
Theorem intervals_are_independent (cfg : Config) (now : Z)
    (sts1 sts2 : list trStat) :
  Stats.queued
    (Stats.statWorker cfg now (Stats.interval sts1 ++ Stats.interval sts2)
                      Stats.init)
  = Stats.queued (Stats.statWorker cfg now (Stats.interval sts1) Stats.init)
    ++ Stats.queued
         (Stats.statWorker cfg now (Stats.interval sts2) Stats.init).
Proof.
  destruct (interval_end cfg now sts1 Stats.init eq_refl) as [Hm Hr].
  rewrite statWorker_app by done.
  destruct (Stats.statWorker cfg now (Stats.interval sts1) Stats.init)
    as [m1 q1 l1 r1]. cbn in Hm, Hr. subst m1 r1.
  rewrite statWorker_frame. done.
Qed.

Lemma maps_filter_known sts m :
  foldl (fun m st => (Stats.recvStat m st).1) m sts
  = foldl (fun m st => (Stats.recvStat m st).1) m
          (filter (fun st => known_metric st = true) sts).
Proof.
  revert m. induction sts as [|st sts IH]; intros m; [done|].
  destruct (known_metric st) eqn:E.
  - rewrite filter_cons_True by done. cbn [foldl]. apply IH.
  - rewrite filter_cons_False by (rewrite E; done). cbn [foldl].
    rewrite <- IH. f_equal.
    unfold known_metric in E. unfold Stats.recvStat.
    repeat case_decide; done.
Qed.

(** X5: stats of an unknown metric kind are ignored. A flush queues what it
    would queue had they not been sent, and the log holds one line per such
    stat, in order. *)
Theorem unknown_metrics_are_ignored (cfg : Config) (now : Z)
    (sts : list trStat) :
  let r := Stats.statWorker cfg now (Stats.interval sts) Stats.init in
  Stats.queued r
  = Stats.queued
      (Stats.statWorker cfg now
         (Stats.interval (filter (fun st => known_metric st = true) sts))
         Stats.init)
  /\ Stats.st_log r
     = (LogInvalidMetric ∘ metric
          <$> filter (fun st => known_metric st = false) sts).
Proof.
  cbn zeta. split.
  - rewrite !statWorker_interval, !statWorker_stats_maps.
    by rewrite <- maps_filter_known.
  - unfold Stats.interval.
    rewrite statWorker_app by by apply statWorker_stats_returned.
    cbn [Stats.statWorker Stats.statWorker_iter Stats.flushStats
         Stats.returned Stats.st_log].
    by rewrite statWorker_stats_log.
Qed.


(** ** The periodic-flush timers, in general *)

(** X7: the timer of [receiver/worker.go]. For durations with
    [0 <= minCacheDur <= maxCacheDur], whatever the generator draws,
    [rand.Intn] gets a positive argument and the duration slept lies in
    [[minCacheDur, maxCacheDur]]. *)
Theorem receiver_timer_sleeps_within_cache_durations
    (minCacheDur maxCacheDur draw : Z) :
  0 <= minCacheDur -> minCacheDur <= maxCacheDur ->
  maxCacheDur <= Int64.max_int ->
  exists dur,
    ReceiverTimer.workerPeriodicFlushSignal minCacheDur maxCacheDur draw
    = Done dur
    /\ minCacheDur <= dur <= maxCacheDur.
Proof. intros. by apply receiver_sleep_within. Qed.

(** Between 5s and 5s, and between 1s and 3s with the draw 12345. *)
Lemma receiver_timer_sleeps_within_cache_durations_witness :
  (exists dur,
      ReceiverTimer.workerPeriodicFlushSignal 5000000000 5000000000 7
      = Done dur /\ 5000000000 <= dur <= 5000000000)
  /\ (exists dur,
         ReceiverTimer.workerPeriodicFlushSignal 1000000000 3000000000 12345
         = Done dur /\ 1000000000 <= dur <= 3000000000).
Proof.
  split.
  - apply (receiver_timer_sleeps_within_cache_durations
             5000000000 5000000000 7); vm_compute; discriminate.
  - apply (receiver_timer_sleeps_within_cache_durations
             1000000000 3000000000 12345); vm_compute; discriminate.
Defined.

(** X8: the timer of [transceiver.go] panics exactly on short ranges. For
    durations with [0 <= MinCache <= MaxCache], [rand.Intn] panics if and
    only if [MaxCache - MinCache] is below 1000ns, whatever the draw. *)
Theorem transceiver_timer_panics_iff_range_below_1000
    (MinCache MaxCache draw : Z) :
  0 <= MinCache -> MinCache <= MaxCache -> MaxCache <= Int64.max_int ->
  (TransceiverTimer.periodicFlushSleep MinCache MaxCache draw
   = Panic "invalid argument to Intn")
  <-> MaxCache - MinCache < 1000.
Proof.
  intros Hmin Hle Hmax. unfold TransceiverTimer.periodicFlushSleep.
  rewrite (delta_no_overflow _ _ Hmin Hle Hmax).
  rewrite (quot_no_overflow _ _ Hmin Hle Hmax) by lia.
  unfold rand_Intn.
  destruct ((MaxCache - MinCache) / 1000 <=? 0) eqn:E; cbn [obind].
  - split; [intros _|done]. apply Z.leb_le in E.
    apply Z.nle_gt. intros Hge.
    assert (1 <= (MaxCache - MinCache) / 1000)
      by (apply Z.div_le_lower_bound; lia). lia.
  - split; [discriminate|]. intros Hlt. apply Z.leb_gt in E.
    rewrite Z.div_small in E by lia. lia.
Qed.

(** A range of 999ns panics, a range of 1000ns does not. *)
Lemma transceiver_timer_panics_iff_range_below_1000_witness :
  TransceiverTimer.periodicFlushSleep 5000000000 5000000999 3
  = Panic "invalid argument to Intn"
  /\ TransceiverTimer.periodicFlushSleep 5000000000 5000001000 3
     <> Panic "invalid argument to Intn".
Proof.
  split.
  - apply (transceiver_timer_panics_iff_range_below_1000
             5000000000 5000000999 3); vm_compute; (discriminate || reflexivity).
  - intros H.
    apply (transceiver_timer_panics_iff_range_below_1000
             5000000000 5000001000 3) in H; vm_compute; discriminate.
Defined.

(** X9: what the timer of [transceiver.go] sleeps when it does not panic.
    For [0 <= MinCache], a range of at least 1000ns and no overflow of
    [MinCache + 1000 * range], the sleep is [MinCache] plus a whole number
    of milliseconds, at least [MinCache] and below
    [MinCache + 1000 * (MaxCache - MinCache)]. *)
Theorem transceiver_timer_sleep_bounds (MinCache MaxCache draw : Z) :
  0 <= MinCache -> 1000 <= MaxCache - MinCache ->
  MinCache + 1000 * (MaxCache - MinCache) <= Int64.max_int ->
  exists dur r,
    TransceiverTimer.periodicFlushSleep MinCache MaxCache draw = Done dur
    /\ dur = MinCache + r * Millisecond
    /\ 0 <= r < (MaxCache - MinCache) / 1000
    /\ MinCache <= dur < MinCache + 1000 * (MaxCache - MinCache).
Proof.
  intros Hmin Hrange Hov.
  assert (Hle : MinCache <= MaxCache) by lia.
  assert (Hmax : MaxCache <= Int64.max_int) by lia.
  unfold TransceiverTimer.periodicFlushSleep.
  rewrite (delta_no_overflow _ _ Hmin Hle Hmax).
  rewrite (quot_no_overflow _ _ Hmin Hle Hmax) by lia.
  set (i := (MaxCache - MinCache) / 1000).
  assert (Hi : 1 <= i) by (apply Z.div_le_lower_bound; lia).
  assert (Hm : 1000 * i <= MaxCache - MinCache)
    by (apply Z.mul_div_le; lia).
  destruct (rand_Intn draw i) as [r| |msg] eqn:Er.
  - apply rand_Intn_range in Er. cbn [obind].
    assert (Hr : Int64.mul r Millisecond = r * 1000000).
    { unfold Int64.mul, Millisecond. apply wrap_id.
      unfold Int64.in_range, Int64.min_int, Int64.max_int in *. nia. }
    rewrite Hr.
    assert (Hs : Int64.add (r * 1000000) MinCache = r * 1000000 + MinCache).
    { unfold Int64.add. apply wrap_id.
      unfold Int64.in_range, Int64.min_int, Int64.max_int in *. nia. }
    rewrite Hs. exists (r * 1000000 + MinCache), r.
    unfold Millisecond. repeat split; lia.
  - unfold rand_Intn in Er. destruct (_ <=? 0); discriminate.
  - unfold rand_Intn in Er. destruct (i <=? 0) eqn:E; [lia|discriminate].
Qed.

(** Between 0 and 1s with the draw 999999: 999.999s. *)
Lemma transceiver_timer_sleep_bounds_witness :
  exists dur r,
    TransceiverTimer.periodicFlushSleep 0 1000000000 999999 = Done dur
    /\ dur = 0 + r * Millisecond
    /\ 0 <= r < (1000000000 - 0) / 1000
    /\ 0 <= dur < 0 + 1000 * (1000000000 - 0).
Proof.
  apply (transceiver_timer_sleep_bounds 0 1000000000 999999);
    vm_compute; discriminate.
Defined.

(** ** Copy requests, in general *)

(** X10: a copy request for a registered id. With the registry holding
    [d] under the non-negative [id] and the request channel of the shard
    [id mod N] open with room left, [requestDsCopy(id)] returns the
    [mostlyCopy] of [d]. *)
Theorem requestDsCopy_returns_copy_of_known_id (cfg : Config)
    (t : Transceiver.trTransceiver) (id : Z) (d : trDataSource)
    (c : chan dsCopyRequest) :
  Transceiver.dss t !! id = Some d ->
  0 < Workers cfg -> 0 <= id <= Int64.max_int ->
  index (Transceiver.dsCopyChs t) (id mod Workers cfg) = Done c ->
  ch_closed c = false -> ch_recv c = false ->
  (length (ch_buf c) < ch_cap c)%nat ->
  Transceiver.requestDsCopy cfg t id = Done (Some (mostlyCopy d)).
Proof. apply requestDsCopy_known. Qed.

(** Three workers, the data source 7 on the shard 1. *)
Lemma requestDsCopy_returns_copy_of_known_id_witness :
  let cfg := mkConfig 3 0 0 1000000000 "s" in
  let d7 := mkDataSource 7 "foo.bar" 100 [1; 2]%float in
  let t := Transceiver.startWorkers cfg
             (Transceiver.mkTransceiver {[ 7 := d7 ]} [] [] []) in
  Transceiver.requestDsCopy cfg t 7 = Done (Some (mostlyCopy d7)).
Proof.
  intros cfg d7 t.
  apply (requestDsCopy_returns_copy_of_known_id cfg t 7 d7 (make_chan 1024));
    vm_compute; try reflexivity; try discriminate.
  - split; discriminate.
  - apply Nat.ltb_lt. vm_compute. reflexivity.
Defined.

(** X11: a negative id. Go's [%] keeps the sign of the id, so for a
    negative id that is no multiple of [config.Workers] the index of the
    request channel is negative and [requestDsCopy] panics, whatever the
    registry holds. *)
Theorem requestDsCopy_panics_on_negative_id (cfg : Config)
    (t : Transceiver.trTransceiver) (id : Z) :
  Int64.min_int <= id < 0 -> 0 < Workers cfg ->
  Z.rem id (Workers cfg) <> 0 ->
  Transceiver.requestDsCopy cfg t id = Panic "index out of range".
Proof.
  intros Hid HW Hrem. unfold Transceiver.requestDsCopy, shard, Int64.rem.
  destruct (Workers cfg =? 0) eqn:E; [lia|]. cbn [obind].
  assert (Hopp : Z.rem id (Workers cfg) = - Z.rem (- id) (Workers cfg)).
  { rewrite <- Z.rem_opp_l'. f_equal. lia. }
  pose proof (Z.rem_bound_pos (- id) (Workers cfg)) as Hb.
  pose proof (Z.rem_le (- id) (Workers cfg)) as Ha.
  rewrite wrap_id.
  - unfold index. destruct (Z.rem id (Workers cfg) <? 0) eqn:E2; [done|lia].
  - unfold Int64.in_range, Int64.min_int, Int64.max_int in *. lia.
Qed.

(** Two workers and the id -1. *)
Lemma requestDsCopy_panics_on_negative_id_witness :
  let cfg := mkConfig 2 0 0 1000000000 "s" in
  let t := Transceiver.startWorkers cfg
             (Transceiver.mkTransceiver ∅ [] [] []) in
  Transceiver.requestDsCopy cfg t (-1) = Panic "index out of range".
Proof.
  intros cfg t.
  apply (requestDsCopy_panics_on_negative_id cfg t (-1)).
  - vm_compute. split; [discriminate|reflexivity].
  - reflexivity.
  - vm_compute. discriminate.
Defined.

(** ** The worker of [transceiver.go], in general *)

(** A pass over [recent], with the flushers at their receive: the ids
    that leave [recent] are those whose data source is known and due; each
    of them has had its snapshot handed to its flusher and its live data
    source stamped and cleared; everything else is as before. *)
Lemma transceiver_pass_exact sbf cfg now id fe w :
  registry_ok (Transceiver.dss (Transceiver.tr w)) ->
  flushers_ready cfg (Transceiver.tr w) ->
  exists w',
    Transceiver.flushRecent sbf cfg now id fe w = Done w'
    /\ registry_ok (Transceiver.dss (Transceiver.tr w'))
    /\ flushers_ready cfg (Transceiver.tr w')
    /\ (forall k, k ∈ Transceiver.recent w' <->
          k ∈ Transceiver.recent w
          /\ forall d, Transceiver.dss (Transceiver.tr w) !! k = Some d ->
                       pass_due sbf now fe d = false)
    /\ (forall k d, k ∈ Transceiver.recent w ->
          Transceiver.dss (Transceiver.tr w) !! k = Some d ->
          pass_due sbf now fe d = true ->
          delivered cfg (Transceiver.tr w') k d
          /\ Transceiver.dss (Transceiver.tr w') !! k
             = Some (clearRRAs (set_LastFlushRT now d)))
    /\ (forall k, (k ∉ Transceiver.recent w) \/ (k ∈ Transceiver.recent w') ->
          Transceiver.dss (Transceiver.tr w') !! k
          = Transceiver.dss (Transceiver.tr w) !! k).
Proof.
  intros Hok Hready. unfold Transceiver.flushRecent.
  set (dss0 := Transceiver.dss (Transceiver.tr w)).
  set (rec0 := Transceiver.recent w).
  set (I := fun w' : Transceiver.wstate =>
    registry_ok (Transceiver.dss (Transceiver.tr w'))
    /\ flushers_ready cfg (Transceiver.tr w')
    /\ Transceiver.recent w' ⊆ rec0
    /\ (forall j, j ∉ rec0 ->
          Transceiver.dss (Transceiver.tr w') !! j = dss0 !! j)
    /\ (forall j, j ∈ rec0 ->
          (j ∈ Transceiver.recent w'
           /\ Transceiver.dss (Transceiver.tr w') !! j = dss0 !! j)
          \/ ((j ∉ Transceiver.recent w')
              /\ exists d, dss0 !! j = Some d
                   /\ pass_due sbf now fe d = true
                   /\ delivered cfg (Transceiver.tr w') j d
                   /\ Transceiver.dss (Transceiver.tr w') !! j
                      = Some (clearRRAs (set_LastFlushRT now d))))).
  set (Q := fun (k : Z) (_ : Transceiver.wstate) =>
    forall d, dss0 !! k = Some d -> pass_due sbf now fe d = false).
  destruct (rangeLoop_post Transceiver.recent
              (Transceiver.flushBody sbf cfg now id fe) I Q)
    with (keys := elements rec0) (s := w)
    as (w' & Hrun & HI & Hsub & _ & Hpost).
  - intros k w1 HI1 Hk.
    pose proof HI1 as (Hok1 & Hrdy1 & Hsub1 & Hout1 & Hin1).
    assert (Hk0 : k ∈ rec0) by (by apply Hsub1).
    assert (Hsame : Transceiver.dss (Transceiver.tr w1) !! k = dss0 !! k).
    { destruct (Hin1 k Hk0) as [[_ H]|[H _]]; [done|by destruct H]. }
    unfold Transceiver.flushBody.
    destruct (Transceiver.dss (Transceiver.tr w1) !! k) as [d|] eqn:Hd.
    + fold (pass_due sbf now fe d).
      destruct (pass_due sbf now fe d) eqn:Hdue.
      * destruct (flushDs_ready cfg now _ k d Hok1 Hrdy1 Hd)
          as (t' & Hf & Hdss' & Hok' & Hrdy' & Hdl & Hkeep).
        unfold Transceiver.flushAndForget. rewrite Hf. cbn [obind].
        destruct (Hok1 k d Hd) as [-> _].
        eexists; split; [reflexivity|].
        unfold I, Q. cbn [Transceiver.tr Transceiver.recent].
        split; [|split; [by apply subseteq_difference_l|split; [|done]]].
        -- split; [done|]. split; [done|].
           split; [by etrans; [apply subseteq_difference_l|]|].
           split.
           ++ intros j Hj. rewrite Hdss'.
              rewrite lookup_insert_ne by (intros ->; done). by apply Hout1.
           ++ intros j Hj. destruct (decide (j = k)) as [->|Hne].
              ** right. split.
                 --- intros [_ Hn]%elem_of_difference.
                     by apply Hn, elem_of_singleton.
                 --- exists d. rewrite <- Hsame. split; [done|].
                     split; [done|]. split; [done|].
                     by rewrite Hdss', lookup_insert_eq.
              ** destruct (Hin1 j Hj) as [[Hjin Hjd]|[Hjout Hjd]].
                 --- left. split.
                     +++ apply elem_of_difference. split; [done|].
                         by intros ?%elem_of_singleton.
                     +++ rewrite Hdss'. by rewrite lookup_insert_ne.
                 --- right. split.
                     +++ intros [Hjin _]%elem_of_difference. done.
                     +++ destruct Hjd as (e & He & Hdue' & Hdl' & Hcl').
                         exists e. split; [done|]. split; [done|].
                         split; [by apply Hkeep|].
                         rewrite Hdss'. by rewrite lookup_insert_ne.
        -- intros [_ Hn]%elem_of_difference.
           by destruct Hn; apply elem_of_singleton.
      * exists w1. split; [done|]. split; [done|]. split; [done|].
        split; [|done]. intros _ e He. unfold Q in *.
        rewrite <- Hsame in He. by injection He as <-.
    + eexists; split; [reflexivity|].
      unfold I, Q. cbn [Transceiver.tr Transceiver.recent Transceiver.add_log
                        Transceiver.dss Transceiver.flusherChs].
      split; [exact HI1|]. split; [done|]. split; [|done].
      intros _ e He. rewrite <- Hsame in He. done.
  - unfold I. split; [done|]. split; [done|]. split; [done|].
    split; [done|]. intros j Hj. by left.
  - destruct HI as (Hok' & Hrdy' & Hsub' & Hout & Hin).
    exists w'. split; [done|]. split; [done|]. split; [done|].
    split; [|split].
    + intros k. split.
      * intros Hk. split; [by apply Hsub'|].
        apply (Hpost k); [|done]. apply elem_of_elements. by apply Hsub'.
      * intros [Hk HQ]. destruct (Hin k Hk) as [[H _]|[_ H]]; [done|].
        destruct H as (e & He & Hdue & _). specialize (HQ e He). congruence.
    + intros k d Hk Hd Hdue.
      destruct (Hin k Hk) as [[Hkin _]|[_ H]].
      * assert (HQ : Q k w') by (apply Hpost; [by apply elem_of_elements|done]).
        specialize (HQ d Hd). congruence.
      * destruct H as (e & He & _ & Hdl & Hcl).
        assert (e = d) by (fold dss0 in Hd; congruence). by subst e.
    + intros k [Hk|Hk]; [by apply Hout|].
      destruct (Hin k (Hsub' k Hk)) as [[_ H]|[H _]]; [done|by destruct H].
Qed.

(** X12: the final pass of [transceiver.go]. With a registry that files
    data sources under their non-negative ids and the flushers at their
    receive, a closed inbox makes the worker hand the snapshot of every
    data source of [recent] to the flusher of its shard, stamp and clear
    the live data source, and leave its loop; only ids unknown to the
    registry are left in [recent]. *)
Theorem transceiver_final_pass_flushes_all_known
    (sbf : Z -> trDataSource -> bool)
    (pr : trDataPoint -> trDataSource -> option trDataSource)
    (cfg : Config) (now id : Z) (rest : list Transceiver.selected)
    (w : Transceiver.wstate) :
  registry_ok (Transceiver.dss (Transceiver.tr w)) ->
  flushers_ready cfg (Transceiver.tr w) ->
  exists w',
    Transceiver.worker sbf pr cfg now id (Transceiver.WorkerCh None :: rest) w
    = Done w'
    /\ (forall k, k ∈ Transceiver.recent w' <->
          k ∈ Transceiver.recent w
          /\ Transceiver.dss (Transceiver.tr w) !! k = None)
    /\ (forall k d, k ∈ Transceiver.recent w ->
          Transceiver.dss (Transceiver.tr w) !! k = Some d ->
          delivered cfg (Transceiver.tr w') k d
          /\ Transceiver.dss (Transceiver.tr w') !! k
             = Some (mkDataSource (Id d) (DsName d) now [])).
Proof.
  intros Hok Hrdy.
  destruct (transceiver_pass_exact sbf cfg now id true w Hok Hrdy)
    as (w' & Hrun & _ & _ & Hrec & Hfl & _).
  exists w'. cbn [Transceiver.worker Transceiver.worker_iter].
  rewrite Hrun. cbn. split; [done|]. split.
  - intros k. rewrite Hrec. split; intros [Hk H]; (split; [done|]).
    + destruct (Transceiver.dss (Transceiver.tr w) !! k) as [d|]; [|done].
      by specialize (H d eq_refl).
    + intros d Hd. congruence.
  - intros k d Hk Hd. by apply Hfl.
Qed.

(** A worker of one shard with the data sources 1 and 4 and an unknown 7
    in [recent]. *)
Lemma transceiver_final_pass_flushes_all_known_witness :
  let cfg := mkConfig 1 10 100 1000000000 "s" in
  let d1 := mkDataSource 1 "foo.bar" 100 [1; 2]%float in
  let d4 := mkDataSource 4 "foo.baz" 120 [3]%float in
  let c := Transceiver.parked (make_chan 0) in
  let w := Transceiver.mkW
             (Transceiver.mkTransceiver {[ 1 := d1; 4 := d4 ]} [c] [] [])
             {[ 1; 4; 7 ]} in
  exists w',
    Transceiver.worker (fun _ _ => false) (fun _ d => Some d) cfg 150 0
                       [Transceiver.WorkerCh None] w = Done w'
    /\ (forall k, k ∈ Transceiver.recent w' <->
          k ∈ Transceiver.recent w
          /\ Transceiver.dss (Transceiver.tr w) !! k = None)
    /\ (forall k d, k ∈ Transceiver.recent w ->
          Transceiver.dss (Transceiver.tr w) !! k = Some d ->
          delivered cfg (Transceiver.tr w') k d
          /\ Transceiver.dss (Transceiver.tr w') !! k
             = Some (mkDataSource (Id d) (DsName d) 150 [])).
Proof.
  intros cfg d1 d4 c w.
  apply (transceiver_final_pass_flushes_all_known
           (fun _ _ => false) (fun _ d => Some d) cfg 150 0 [] w).
  - intros k d Hd. cbn in Hd.
    apply lookup_insert_Some in Hd as [[<- <-]|[_ Hd]].
    + vm_compute. repeat split; discriminate.
    + apply lookup_singleton_Some in Hd as [<- <-].
      vm_compute. repeat split; discriminate.
  - split; [reflexivity|]. split; [reflexivity|].
    repeat constructor.
Defined.

(** [flushDs] with the flushers at their receive, in full: the snapshot is
    appended to what the flusher of the shard has been handed, the live
    data source is stamped and cleared, nothing else changes. *)
Lemma flushDs_ready_exact cfg now t k d :
  registry_ok (Transceiver.dss t) -> flushers_ready cfg t ->
  Transceiver.dss t !! k = Some d ->
  exists c,
    Transceiver.flusherChs t !! Z.to_nat (k mod Workers cfg) = Some c
    /\ Transceiver.flushDs cfg now t k
       = Done (Transceiver.mkTransceiver
                 (<[k := clearRRAs (set_LastFlushRT now d)]>
                    (Transceiver.dss t))
                 (<[Z.to_nat (k mod Workers cfg) :=
                      mkChan (ch_cap c) (ch_buf c) (ch_recv c)
                             (ch_taken c ++ [mostlyCopy d]) (ch_closed c)]>
                    (Transceiver.flusherChs t))
                 (Transceiver.dsCopyChs t) (Transceiver.log t)).
Proof.
  intros Hok (HW & Hlen & Hall) Hd.
  destruct (Hok k d Hd) as [HId Hk].
  assert (Hm : 0 <= k mod Workers cfg < Workers cfg)
    by (apply Z.mod_pos_bound; lia).
  assert (Hlt : (Z.to_nat (k mod Workers cfg)
                 < length (Transceiver.flusherChs t))%nat) by lia.
  destruct (lookup_lt_is_Some_2 _ _ Hlt) as [c Hc].
  assert (Hcok : ch_recv c = true /\ ch_closed c = false).
  { eapply Forall_lookup_1 in Hall; [exact Hall|exact Hc]. }
  destruct Hcok as [Hrv Hcl].
  exists c. split; [done|].
  unfold Transceiver.flushDs. rewrite Hd, HId.
  rewrite shard_nonneg by done. cbn [obind].
  unfold index. destruct (k mod Workers cfg <? 0) eqn:E; [lia|].
  rewrite Hc. cbn [obind]. unfold chan_send. rewrite Hcl, Hrv. cbn [obind].
  done.
Qed.

Lemma pass_snapshots_ext sbf now fe cfg m1 m2 i keys :
  (forall k, k ∈ keys -> m1 !! k = m2 !! k) ->
  pass_snapshots sbf now fe cfg m1 i keys
  = pass_snapshots sbf now fe cfg m2 i keys.
Proof.
  intros H. unfold pass_snapshots. apply list_omap_ext.
  induction keys as [|k ks IH]; constructor.
  - rewrite (H k) by left. done.
  - apply IH. intros j Hj. apply H. by right.
Qed.

Lemma pass_anomalies_ext id m1 m2 keys :
  (forall k, k ∈ keys -> m1 !! k = m2 !! k) ->
  pass_anomalies id m1 keys = pass_anomalies id m2 keys.
Proof.
  intros H. unfold pass_anomalies. apply list_omap_ext.
  induction keys as [|k ks IH]; constructor.
  - rewrite (H k) by left. done.
  - apply IH. intros j Hj. apply H. by right.
Qed.

(** The loop of a pass over keys still in [recent], each visited once,
    with the flushers at their receive: what the flushers have been handed
    and what has been logged. *)
Lemma transceiver_pass_handed sbf cfg now id fe keys :
  forall w,
    NoDup keys -> (forall k, k ∈ keys -> k ∈ Transceiver.recent w) ->
    registry_ok (Transceiver.dss (Transceiver.tr w)) ->
    flushers_ready cfg (Transceiver.tr w) ->
    exists w',
      rangeLoop Transceiver.recent (Transceiver.flushBody sbf cfg now id fe)
                keys w = Done w'
      /\ Transceiver.dsCopyChs (Transceiver.tr w')
         = Transceiver.dsCopyChs (Transceiver.tr w)
      /\ Transceiver.log (Transceiver.tr w')
         = Transceiver.log (Transceiver.tr w)
           ++ pass_anomalies id (Transceiver.dss (Transceiver.tr w)) keys
      /\ length (Transceiver.flusherChs (Transceiver.tr w'))
         = length (Transceiver.flusherChs (Transceiver.tr w))
      /\ forall i c,
           Transceiver.flusherChs (Transceiver.tr w) !! i = Some c ->
           Transceiver.flusherChs (Transceiver.tr w') !! i
           = Some (mkChan (ch_cap c) (ch_buf c) (ch_recv c)
                     (ch_taken c
                        ++ pass_snapshots sbf now fe cfg
                             (Transceiver.dss (Transceiver.tr w)) i keys)
                     (ch_closed c)).
Proof.
  induction keys as [|k ks IH]; intros w Hnd Hin Hok Hrdy; cbn [rangeLoop].
  - exists w. split; [done|]. split; [done|].
    split; [by rewrite app_nil_r|]. split; [done|].
    intros i c Hc. cbn. rewrite app_nil_r. by destruct c.
  - apply NoDup_cons in Hnd as [Hk Hnd].
    rewrite decide_True by (apply Hin; left).
    unfold Transceiver.flushBody at 1.
    destruct (Transceiver.dss (Transceiver.tr w) !! k) as [d|] eqn:Hd.
    + fold (pass_due sbf now fe d).
      destruct (pass_due sbf now fe d) eqn:Hdue.
      * destruct (flushDs_ready cfg now _ k d Hok Hrdy Hd)
          as (t' & Hf1 & _ & Hok' & Hrdy' & _ & _).
        destruct (flushDs_ready_exact cfg now _ k d Hok Hrdy Hd)
          as (c0 & Hc0 & Hf).
        rewrite Hf in Hf1. injection Hf1 as Ht'.
        unfold Transceiver.flushAndForget. rewrite Hf. cbn [obind].
        destruct (Hok k d Hd) as [HId _]. rewrite HId.
        match goal with
        | |- context [rangeLoop _ _ ks ?w1] =>
            destruct (IH w1) as (w' & -> & Hcp & Hlog & Hlen & Hchs);
              [exact Hnd| | | |]
        end.
        { cbn. intros j Hj. apply elem_of_difference. split.
          - apply Hin. by right.
          - intros ->%elem_of_singleton. done. }
        { cbn [Transceiver.tr]. by rewrite Ht'. }
        { cbn [Transceiver.tr]. by rewrite Ht'. }
        cbn [Transceiver.tr Transceiver.dss Transceiver.flusherChs
             Transceiver.dsCopyChs Transceiver.log] in Hcp, Hlog, Hlen, Hchs.
        exists w'. split; [done|]. split; [done|].
        assert (Hsame : forall j, j ∈ ks ->
                  <[k := clearRRAs (set_LastFlushRT now d)]>
                    (Transceiver.dss (Transceiver.tr w)) !! j
                  = Transceiver.dss (Transceiver.tr w) !! j).
        { intros j Hj. apply lookup_insert_ne. by intros ->. }
        split; [|split].
        -- rewrite Hlog, (pass_anomalies_ext _ _ _ _ Hsame).
           unfold pass_anomalies at 2. cbn [omap list_omap]. by rewrite Hd.
        -- by rewrite Hlen, length_insert.
        -- intros i c Hc.
           assert (Hchs' : forall c1,
                     <[Z.to_nat (k mod Workers cfg) :=
                         mkChan (ch_cap c0) (ch_buf c0) (ch_recv c0)
                                (ch_taken c0 ++ [mostlyCopy d])
                                (ch_closed c0)]>
                       (Transceiver.flusherChs (Transceiver.tr w)) !! i
                     = Some c1 ->
                     Transceiver.flusherChs (Transceiver.tr w') !! i
                     = Some (mkChan (ch_cap c1) (ch_buf c1) (ch_recv c1)
                               (ch_taken c1
                                  ++ pass_snapshots sbf now fe cfg
                                       (Transceiver.dss (Transceiver.tr w))
                                       i ks)
                               (ch_closed c1))).
           { intros c1 Hc1. rewrite (Hchs i c1 Hc1).
             by rewrite (pass_snapshots_ext _ _ _ _ _ _ i ks Hsame). }
           unfold pass_snapshots at 1. cbn [omap list_omap].
           rewrite Hd, Hdue. cbn [andb].
           fold (pass_snapshots sbf now fe cfg
                   (Transceiver.dss (Transceiver.tr w)) i ks).
           destruct (decide (Z.to_nat (k mod Workers cfg) = i)) as [Hi|Hi].
           ++ rewrite bool_decide_true by done. subst i.
              assert (c = c0) by congruence. subst c0.
              erewrite Hchs';
                [|apply list_lookup_insert_eq; by eapply lookup_lt_Some].
              cbn [ch_cap ch_buf ch_recv ch_taken ch_closed].
              by rewrite <- app_assoc.
           ++ rewrite bool_decide_false by done.
              apply Hchs'. by rewrite list_lookup_insert_ne.
      * cbn [obind].
        destruct (IH w) as (w' & -> & Hcp & Hlog & Hlen & Hchs);
          [exact Hnd|intros j Hj; apply Hin; by right|exact Hok|exact Hrdy|].
        exists w'. split; [done|]. split; [done|]. split; [|split; [done|]].
        -- rewrite Hlog. unfold pass_anomalies at 2. cbn [omap list_omap].
           by rewrite Hd.
        -- intros i c Hc. rewrite (Hchs i c Hc).
           unfold pass_snapshots at 2. cbn [omap list_omap].
           rewrite Hd, Hdue. done.
    + cbn [obind].
      match goal with
      | |- context [rangeLoop _ _ ks ?w1] =>
          destruct (IH w1) as (w' & -> & Hcp & Hlog & Hlen & Hchs);
            [exact Hnd| |exact Hok|exact Hrdy|]
      end.
      { cbn. intros j Hj. apply Hin. by right. }
      cbn [Transceiver.tr Transceiver.dss Transceiver.flusherChs
           Transceiver.dsCopyChs Transceiver.log Transceiver.add_log]
        in Hcp, Hlog, Hlen, Hchs.
      exists w'. split; [done|]. split; [done|]. split; [|split; [done|]].
      * rewrite Hlog. unfold pass_anomalies at 2. cbn [omap list_omap].
        rewrite Hd. by rewrite <- app_assoc.
      * intros i c Hc. rewrite (Hchs i c Hc).
        unfold pass_snapshots at 2. cbn [omap list_omap]. by rewrite Hd.
Qed.

(** X13: the periodic pass of [transceiver.go]. Under the same conditions
    a tick makes the worker flush exactly the data sources of [recent]
    that [shouldBeFlushed] reports: those leave [recent], the live data
    source is stamped and cleared, and each flusher is handed the snapshots
    of the due data sources of its shard, one each and nothing else; the
    other data sources stay as they are, in [recent] and in the registry;
    the ids the registry does not know are logged, one line each; and the
    loop goes on. *)
Theorem transceiver_periodic_pass_flushes_exactly_the_due
    (sbf : Z -> trDataSource -> bool)
    (pr : trDataPoint -> trDataSource -> option trDataSource)
    (cfg : Config) (now id : Z) (w : Transceiver.wstate) :
  registry_ok (Transceiver.dss (Transceiver.tr w)) ->
  flushers_ready cfg (Transceiver.tr w) ->
  exists w',
    Transceiver.worker_iter sbf pr cfg now id Transceiver.PeriodicFlushCheck w
    = Done (w', None, false)
    /\ (forall k, k ∈ Transceiver.recent w' <->
          k ∈ Transceiver.recent w
          /\ forall d, Transceiver.dss (Transceiver.tr w) !! k = Some d ->
                       sbf now d = false)
    /\ (forall k d, k ∈ Transceiver.recent w ->
          Transceiver.dss (Transceiver.tr w) !! k = Some d ->
          sbf now d = true ->
          delivered cfg (Transceiver.tr w') k d
          /\ Transceiver.dss (Transceiver.tr w') !! k
             = Some (mkDataSource (Id d) (DsName d) now []))
    /\ (forall k, (k ∉ Transceiver.recent w) \/ (k ∈ Transceiver.recent w') ->
          Transceiver.dss (Transceiver.tr w') !! k
          = Transceiver.dss (Transceiver.tr w) !! k)
    /\ length (Transceiver.flusherChs (Transceiver.tr w'))
       = length (Transceiver.flusherChs (Transceiver.tr w))
    /\ (forall i c,
          Transceiver.flusherChs (Transceiver.tr w) !! i = Some c ->
          exists l,
            Transceiver.flusherChs (Transceiver.tr w') !! i
            = Some (mkChan (ch_cap c) (ch_buf c) (ch_recv c)
                           (ch_taken c ++ l) (ch_closed c))
            /\ l ≡ₚ pass_snapshots sbf now false cfg
                      (Transceiver.dss (Transceiver.tr w)) i
                      (elements (Transceiver.recent w)))
    /\ Transceiver.dsCopyChs (Transceiver.tr w')
       = Transceiver.dsCopyChs (Transceiver.tr w)
    /\ exists ll,
         Transceiver.log (Transceiver.tr w')
         = Transceiver.log (Transceiver.tr w) ++ ll
         /\ ll ≡ₚ pass_anomalies id (Transceiver.dss (Transceiver.tr w))
                    (elements (Transceiver.recent w)).
Proof.
  intros Hok Hrdy.
  destruct (transceiver_pass_exact sbf cfg now id false w Hok Hrdy)
    as (w' & Hrun & _ & _ & Hrec & Hfl & Hsame).
  destruct (transceiver_pass_handed sbf cfg now id false
              (elements (Transceiver.recent w)) w)
    as (w2 & Hrun2 & Hcp & Hlog & Hlen & Hchs);
    [apply NoDup_elements|by intros k ?%elem_of_elements|done..|].
  assert (w2 = w') as ->.
  { unfold Transceiver.flushRecent in Hrun. congruence. }
  exists w'. cbn [Transceiver.worker_iter]. rewrite Hrun. cbn [obind].
  split; [done|]. split; [exact Hrec|]. split; [|split; [exact Hsame|]].
  - intros k d Hk Hd Hdue. by apply Hfl.
  - split; [exact Hlen|]. split; [|split; [exact Hcp|]].
    + intros i c Hc. eexists. split; [by apply Hchs|done].
    + eexists. split; [exact Hlog|done].
Qed.

(** One flusher; the data source 1 is due (its last flush is older than
    10), the data source 4 is not, and 7 is not registered: the flusher is
    handed the snapshot of 1 only. *)
Lemma transceiver_periodic_pass_flushes_exactly_the_due_witness :
  let cfg := mkConfig 1 10 100 1000000000 "s" in
  let d1 := mkDataSource 1 "foo.bar" 100 [1; 2]%float in
  let d4 := mkDataSource 4 "foo.baz" 145 [3]%float in
  let c := Transceiver.parked (make_chan 0) in
  let w := Transceiver.mkW
             (Transceiver.mkTransceiver {[ 1 := d1; 4 := d4 ]} [c] [] [])
             {[ 1; 4; 7 ]} in
  let sbf := fun now d => 10 <? now - LastFlushRT d in
  exists w' l ll,
    Transceiver.worker_iter sbf (fun _ d => Some d) cfg 150 0
                            Transceiver.PeriodicFlushCheck w
    = Done (w', None, false)
    /\ (forall k, k ∈ Transceiver.recent w' <->
          k ∈ Transceiver.recent w
          /\ forall d, Transceiver.dss (Transceiver.tr w) !! k = Some d ->
                       sbf 150 d = false)
    /\ Transceiver.flusherChs (Transceiver.tr w')
       = [mkChan 0 [] true l false]
    /\ l ≡ₚ [d1]
    /\ Transceiver.log (Transceiver.tr w') = ll
    /\ ll ≡ₚ [LogFlushLookup 0 7].
Proof.
  intros cfg d1 d4 c w sbf.
  destruct (transceiver_periodic_pass_flushes_exactly_the_due
              sbf (fun _ d => Some d) cfg 150 0 w)
    as (w' & Hrun & Hrec & _ & _ & Hlen & Hchs & _ & ll & Hlog & Hll).
  - intros k d Hd. cbn in Hd.
    apply lookup_insert_Some in Hd as [[<- <-]|[_ Hd]].
    + vm_compute. repeat split; discriminate.
    + apply lookup_singleton_Some in Hd as [<- <-].
      vm_compute. repeat split; discriminate.
  - split; [reflexivity|]. split; [reflexivity|].
    repeat constructor.
  - destruct (Hchs 0%nat c eq_refl) as (l & Hc & Hl).
    exists w', l, ll. split; [exact Hrun|]. split; [exact Hrec|].
    split; [|split; [|split]].
    + destruct (Transceiver.flusherChs (Transceiver.tr w'))
        as [|c' [|c'' rest]]; [done| |done].
      cbn in Hc. by injection Hc as ->.
    + rewrite Hl. vm_compute. reflexivity.
    + exact Hlog.
    + rewrite Hll. vm_compute. reflexivity.
Defined.

Lemma union_difference_singleton (X : gset Z) (p : Z) :
  (X ∪ {[p]}) ∖ {[p]} = X ∖ {[p]}.
Proof.
  apply set_eq. intros x.
  rewrite !elem_of_difference, elem_of_union. tauto.
Qed.

(** X14: a data point applied by the worker of [transceiver.go]. When
    [dp.process()] succeeds (keeping the id of the data source), the worker
    either flushes the data source at once, if [shouldBeFlushed] says so
    (snapshot of the updated data source to the flusher, live data source
    stamped and cleared, id out of [recent]), or stores the update and
    puts the id into [recent]. *)
Theorem transceiver_point_is_flushed_or_marked_recent
    (sbf : Z -> trDataSource -> bool)
    (pr : trDataPoint -> trDataSource -> option trDataSource)
    (cfg : Config) (now id : Z) (w : Transceiver.wstate)
    (dp : trDataPoint) (p : Z) (d d' : trDataSource) :
  registry_ok (Transceiver.dss (Transceiver.tr w)) ->
  flushers_ready cfg (Transceiver.tr w) ->
  ds dp = Some p ->
  Transceiver.dss (Transceiver.tr w) !! p = Some d ->
  pr dp d = Some d' -> Id d' = Id d ->
  exists w',
    Transceiver.worker_iter sbf pr cfg now id
                            (Transceiver.WorkerCh (Some dp)) w
    = Done (w', None, false)
    /\ if sbf now d'
       then Transceiver.recent w' = Transceiver.recent w ∖ {[p]}
            /\ delivered cfg (Transceiver.tr w') p d'
            /\ Transceiver.dss (Transceiver.tr w') !! p
               = Some (mkDataSource (Id d') (DsName d') now [])
       else Transceiver.recent w' = Transceiver.recent w ∪ {[p]}
            /\ Transceiver.dss (Transceiver.tr w') !! p = Some d'
            /\ Transceiver.flusherChs (Transceiver.tr w')
               = Transceiver.flusherChs (Transceiver.tr w).
Proof.
  intros Hok Hrdy Hp Hd Hpr HId.
  destruct (Hok p d Hd) as [HIdp Hrange].
  assert (HId' : Id d' = p) by congruence.
  unfold Transceiver.worker_iter. rewrite Hp, Hd, Hpr.
  cbn [Transceiver.tr Transceiver.dss]. rewrite lookup_insert_eq.
  destruct (sbf now d') eqn:Hdue.
  - set (t1 := Transceiver.mkTransceiver _ _ _ _).
    assert (Hok1 : registry_ok (Transceiver.dss t1)).
    { intros j e Hj. subst t1. cbn in Hj.
      destruct (decide (j = p)) as [->|Hne].
      - rewrite lookup_insert_eq in Hj. injection Hj as <-. done.
      - rewrite lookup_insert_ne in Hj by done. by apply Hok. }
    assert (Hrdy1 : flushers_ready cfg t1) by exact Hrdy.
    assert (Hd1 : Transceiver.dss t1 !! p = Some d')
      by (subst t1; cbn; by rewrite lookup_insert_eq).
    destruct (flushDs_ready cfg now t1 p d' Hok1 Hrdy1 Hd1)
      as (t' & Hf & Hdss' & _ & _ & Hdl & _).
    unfold Transceiver.flushAndForget. cbn [Transceiver.tr Transceiver.recent].
    rewrite Hf. cbn [obind]. eexists; split; [reflexivity|].
    cbn [Transceiver.tr Transceiver.recent]. rewrite HId'.
    split; [apply union_difference_singleton|]. split; [done|].
    rewrite Hdss', lookup_insert_eq. unfold clearRRAs, set_LastFlushRT.
    cbn. by rewrite HId'.
  - eexists; split; [reflexivity|].
    cbn [Transceiver.tr Transceiver.recent Transceiver.dss
         Transceiver.flusherChs].
    rewrite HId'. by rewrite lookup_insert_eq.
Qed.

(** A point for the data source 1, due after the update in the first
    case and not in the second. *)
Lemma transceiver_point_is_flushed_or_marked_recent_witness :
  let cfg := mkConfig 1 10 100 1000000000 "s" in
  let d1 := mkDataSource 1 "foo.bar" 100 [1; 2]%float in
  let c := Transceiver.parked (make_chan 0) in
  let w := Transceiver.mkW
             (Transceiver.mkTransceiver {[ 1 := d1 ]} [c] [] []) ∅ in
  let dp := mkDataPoint "foo.bar" 150 3 (Some 1) in
  let pr := fun (dp : trDataPoint) d => process_append (Value dp) d in
  let d1' := mkDataSource 1 "foo.bar" 100 [1; 2; 3]%float in
  (exists w',
      Transceiver.worker_iter (fun _ d => 3 <=? Z.of_nat (length (RRAs d)))
                              pr cfg 150 0 (Transceiver.WorkerCh (Some dp)) w
      = Done (w', None, false)
      /\ Transceiver.recent w' = Transceiver.recent w ∖ {[1]}
      /\ delivered cfg (Transceiver.tr w') 1 d1'
      /\ Transceiver.dss (Transceiver.tr w') !! 1
         = Some (mkDataSource 1 "foo.bar" 150 []))
  /\ (exists w',
         Transceiver.worker_iter (fun _ _ => false) pr cfg 150 0
                                 (Transceiver.WorkerCh (Some dp)) w
         = Done (w', None, false)
         /\ Transceiver.recent w' = Transceiver.recent w ∪ {[1]}
         /\ Transceiver.dss (Transceiver.tr w') !! 1 = Some d1'
         /\ Transceiver.flusherChs (Transceiver.tr w')
            = Transceiver.flusherChs (Transceiver.tr w)).
Proof.
  intros cfg d1 c w dp pr d1'.
  assert (Hok : registry_ok (Transceiver.dss (Transceiver.tr w))).
  { intros k d Hd. cbn in Hd.
    apply lookup_singleton_Some in Hd as [<- <-].
    vm_compute. repeat split; discriminate. }
  assert (Hrdy : flushers_ready cfg (Transceiver.tr w)).
  { split; [reflexivity|]. split; [reflexivity|]. repeat constructor. }
  split.
  - exact (transceiver_point_is_flushed_or_marked_recent
             (fun _ d => 3 <=? Z.of_nat (length (RRAs d))) pr cfg 150 0 w
             dp 1 d1 d1' Hok Hrdy eq_refl eq_refl eq_refl eq_refl).
  - exact (transceiver_point_is_flushed_or_marked_recent
             (fun _ _ => false) pr cfg 150 0 w
             dp 1 d1 d1' Hok Hrdy eq_refl eq_refl eq_refl eq_refl).
Defined.

(** X15: a data point whose [dp.process()] fails. The worker of
    [transceiver.go] logs the error and does not put the id into [recent];
    it still asks [shouldBeFlushed] and flushes the unchanged data source
    if it is due. *)
Theorem transceiver_failed_point_is_logged_not_marked
    (sbf : Z -> trDataSource -> bool)
    (pr : trDataPoint -> trDataSource -> option trDataSource)
    (cfg : Config) (now id : Z) (w : Transceiver.wstate)
    (dp : trDataPoint) (p : Z) (d : trDataSource) :
  registry_ok (Transceiver.dss (Transceiver.tr w)) ->
  flushers_ready cfg (Transceiver.tr w) ->
  ds dp = Some p ->
  Transceiver.dss (Transceiver.tr w) !! p = Some d ->
  pr dp d = None ->
  exists w',
    Transceiver.worker_iter sbf pr cfg now id
                            (Transceiver.WorkerCh (Some dp)) w
    = Done (w', None, false)
    /\ Transceiver.log (Transceiver.tr w')
       = Transceiver.log (Transceiver.tr w) ++ [LogProcessError id]
    /\ if sbf now d
       then Transceiver.recent w' = Transceiver.recent w ∖ {[p]}
            /\ delivered cfg (Transceiver.tr w') p d
       else Transceiver.recent w' = Transceiver.recent w
            /\ Transceiver.dss (Transceiver.tr w')
               = Transceiver.dss (Transceiver.tr w).
Proof.
  intros Hok Hrdy Hp Hd Hpr.
  destruct (Hok p d Hd) as [HIdp Hrange].
  unfold Transceiver.worker_iter. rewrite Hp, Hd, Hpr.
  set (t1 := Transceiver.add_log (LogProcessError id) (Transceiver.tr w)).
  cbn [Transceiver.tr]. change (Transceiver.dss t1)
    with (Transceiver.dss (Transceiver.tr w)). rewrite Hd.
  destruct (sbf now d) eqn:Hdue.
  - assert (Hok1 : registry_ok (Transceiver.dss t1)) by exact Hok.
    assert (Hrdy1 : flushers_ready cfg t1) by exact Hrdy.
    assert (Hd1 : Transceiver.dss t1 !! p = Some d) by exact Hd.
    pose proof (flushDs_ready cfg now t1 p d Hok1 Hrdy1 Hd1)
      as (t' & Hf & Hdss' & _ & _ & Hdl & _).
    assert (Hlog : Transceiver.log t' = Transceiver.log t1).
    { unfold Transceiver.flushDs in Hf. rewrite Hd1 in Hf.
      destruct (shard _ _); cbn [obind] in Hf; [|done..].
      destruct (index _ _); cbn [obind] in Hf; [|done..].
      destruct (chan_send _ _); cbn [obind] in Hf; [|done..].
      by injection Hf as <-. }
    unfold Transceiver.flushAndForget. cbn [Transceiver.tr Transceiver.recent].
    rewrite Hf. cbn [obind]. eexists; split; [reflexivity|].
    cbn [Transceiver.tr Transceiver.recent]. rewrite HIdp.
    split; [by rewrite Hlog|]. done.
  - eexists; split; [reflexivity|]. done.
Qed.

(** A point the data source 1 rejects, the data source being due. *)
Lemma transceiver_failed_point_is_logged_not_marked_witness :
  let cfg := mkConfig 1 10 100 1000000000 "s" in
  let d1 := mkDataSource 1 "foo.bar" 100 [1; 2]%float in
  let c := Transceiver.parked (make_chan 0) in
  let w := Transceiver.mkW
             (Transceiver.mkTransceiver {[ 1 := d1 ]} [c] [] []) {[ 1 ]} in
  let dp := mkDataPoint "foo.bar" 150 3 (Some 1) in
  exists w',
    Transceiver.worker_iter (fun _ _ => true) (fun _ _ => None) cfg 150 0
                            (Transceiver.WorkerCh (Some dp)) w
    = Done (w', None, false)
    /\ Transceiver.log (Transceiver.tr w')
       = Transceiver.log (Transceiver.tr w) ++ [LogProcessError 0]
    /\ Transceiver.recent w' = Transceiver.recent w ∖ {[1]}
    /\ delivered cfg (Transceiver.tr w') 1 d1.
Proof.
  intros cfg d1 c w dp.
  assert (Hok : registry_ok (Transceiver.dss (Transceiver.tr w))).
  { intros k d Hd. cbn in Hd.
    apply lookup_singleton_Some in Hd as [<- <-].
    vm_compute. repeat split; discriminate. }
  assert (Hrdy : flushers_ready cfg (Transceiver.tr w)).
  { split; [reflexivity|]. split; [reflexivity|]. repeat constructor. }
  exact (transceiver_failed_point_is_logged_not_marked
           (fun _ _ => true) (fun _ _ => None) cfg 150 0 w dp 1 d1
           Hok Hrdy eq_refl eq_refl eq_refl).
Defined.

(** ** The worker of [receiver/worker.go], in general *)

(** X16: the periodic pass of [receiver/worker.go] and unknown ids.
    Whatever the cache and [recent] hold, [workerPeriodicFlush] completes,
    leaves the cache as it is, adds no id to [recent], and every id left in
    [recent] is cached: the ids the cache does not know are deleted. *)
Theorem receiver_periodic_pass_removes_unknown_ids
    (sbf : trDataSource -> Z -> Z -> Z -> bool) (debug : bool)
    (ident : string) (s : Receiver.state)
    (minCacheDur maxCacheDur maxPoints : Z) :
  exists s',
    Receiver.workerPeriodicFlush sbf debug ident s minCacheDur maxCacheDur
                                 maxPoints = Done s'
    /\ Receiver.dss s' = Receiver.dss s
    /\ Receiver.recent s' ⊆ Receiver.recent s
    /\ forall k, k ∈ Receiver.recent s' -> is_Some (Receiver.dss s !! k).
Proof. apply receiver_periodic_pass_leaves_no_dangling_id. Qed.

(** The loop of [workerPeriodicFlush] over keys still in [recent], each
    visited once, with a cache that files data sources under their ids. *)
Lemma receiver_periodic_exact sbf debug ident minCacheDur maxCacheDur
    maxPoints keys :
  forall s,
    NoDup keys -> (forall k, k ∈ keys -> k ∈ Receiver.recent s) ->
    cache_ok (Receiver.dss s) ->
    exists s',
      rangeLoop Receiver.recent
        (Receiver.periodicBody sbf debug ident minCacheDur maxCacheDur
                               maxPoints) keys s = Done s'
      /\ Receiver.dss s' = Receiver.dss s
      /\ (forall j, j ∈ Receiver.recent s' <->
            j ∈ Receiver.recent s
            /\ (j ∈ keys ->
                exists d, Receiver.dss s !! j = Some d
                          /\ sbf d maxPoints minCacheDur minCacheDur = false))
      /\ Receiver.flushed s'
         = Receiver.flushed s
           ++ ((fun k => (k, false))
                 <$> filter (fun k => periodic_due sbf (Receiver.dss s)
                                        maxPoints minCacheDur k = true) keys).
Proof.
  induction keys as [|k ks IH]; intros s Hnd Hin Hok; cbn [rangeLoop].
  - exists s. split; [done|]. split; [done|]. split.
    + intros j. split; [intros Hj; split; [done|]|by intros [Hj _]].
      intros H. by apply elem_of_nil in H.
    + by rewrite app_nil_r.
  - apply NoDup_cons in Hnd as [Hk Hnd].
    rewrite decide_True by (apply Hin; left).
    unfold Receiver.periodicBody at 1.
    destruct (Receiver.dss s !! k) as [d|] eqn:Hd.
    + rewrite (Hok k d Hd).
      destruct (sbf d maxPoints minCacheDur minCacheDur) eqn:Hdue;
        cbn [obind].
      * match goal with
        | |- context [rangeLoop _ _ ks ?s1] =>
            destruct (IH s1) as (s' & -> & Hdss & Hrec & Hfl);
              [exact Hnd| |exact Hok|]
        end.
        { cbn. intros j Hj. apply elem_of_difference. split.
          - apply Hin. by right.
          - intros ->%elem_of_singleton. done. }
        cbn in Hdss, Hrec, Hfl. exists s'. split; [done|]. split; [done|].
        split.
        -- intros j. rewrite Hrec, elem_of_difference, elem_of_singleton.
           split.
           ++ intros [[Hj Hne] Hks]. split; [done|].
              intros [->|H]%elem_of_cons; [done|auto].
           ++ intros [Hj H]. destruct (decide (j = k)) as [->|Hne].
              ** destruct H as (e & He & Hfalse); [left|]. congruence.
              ** split; [done|]. intros Hjk. apply H. by right.
        -- rewrite Hfl. rewrite filter_cons_True
             by (unfold periodic_due; by rewrite Hd).
           by rewrite <- app_assoc.
      * destruct (IH s) as (s' & -> & Hdss & Hrec & Hfl);
          [exact Hnd|intros j Hj; apply Hin; by right|exact Hok|].
        exists s'. split; [done|]. split; [done|]. split.
        -- intros j. rewrite Hrec. split.
           ++ intros [Hj Hks]. split; [done|].
              intros [->|H]%elem_of_cons; [by exists d|auto].
           ++ intros [Hj H]. split; [done|]. intros Hjk. apply H. by right.
        -- rewrite Hfl. rewrite filter_cons_False; [done|].
           unfold periodic_due. rewrite Hd, Hdue. done.
    + cbn [obind].
      match goal with
      | |- context [rangeLoop _ _ ks ?s1] =>
          destruct (IH s1) as (s' & -> & Hdss & Hrec & Hfl);
            [exact Hnd| |exact Hok|]
      end.
      { cbn. intros j Hj. apply elem_of_difference. split.
        - apply Hin. by right.
        - intros ->%elem_of_singleton. done. }
      cbn in Hdss, Hrec, Hfl. exists s'. split; [done|]. split; [done|].
      split.
      * intros j. rewrite Hrec, elem_of_difference, elem_of_singleton.
        split.
        -- intros [[Hj Hne] Hks]. split; [done|].
           intros [->|H]%elem_of_cons; [done|auto].
        -- intros [Hj H]. destruct (decide (j = k)) as [->|Hne].
           ++ destruct H as (e & He & Hfalse); [left|]. congruence.
           ++ split; [done|]. intros Hjk. apply H. by right.
      * rewrite Hfl. rewrite filter_cons_False; [done|].
        unfold periodic_due. by rewrite Hd.
Qed.

(** X17: what the periodic pass of [receiver/worker.go] flushes. With a
    cache that files data sources under their ids, an id stays in [recent]
    exactly when its data source is cached and
    [shouldBeFlushed(maxPoints, minCacheDur, minCacheDur)] is false; and
    [flushDs(rds, false)] is called once for each other cached id of
    [recent], and for nothing else. *)
Theorem receiver_periodic_pass_flushes_exactly_the_due
    (sbf : trDataSource -> Z -> Z -> Z -> bool) (debug : bool)
    (ident : string) (s : Receiver.state)
    (minCacheDur maxCacheDur maxPoints : Z) :
  cache_ok (Receiver.dss s) ->
  exists s' l,
    Receiver.workerPeriodicFlush sbf debug ident s minCacheDur maxCacheDur
                                 maxPoints = Done s'
    /\ (forall k, k ∈ Receiver.recent s' <->
          k ∈ Receiver.recent s
          /\ exists d, Receiver.dss s !! k = Some d
                       /\ sbf d maxPoints minCacheDur minCacheDur = false)
    /\ Receiver.flushed s' = Receiver.flushed s ++ l
    /\ l ≡ₚ (fun k => (k, false))
            <$> filter (fun k => periodic_due sbf (Receiver.dss s) maxPoints
                                   minCacheDur k = true)
                       (elements (Receiver.recent s)).
Proof.
  intros Hok. unfold Receiver.workerPeriodicFlush.
  destruct (receiver_periodic_exact sbf debug ident minCacheDur maxCacheDur
              maxPoints (elements (Receiver.recent s)) s)
    as (s' & Hrun & _ & Hrec & Hfl);
    [apply NoDup_elements|by intros k ?%elem_of_elements|done|].
  exists s', ((fun k => (k, false))
                <$> filter (fun k => periodic_due sbf (Receiver.dss s)
                                       maxPoints minCacheDur k = true)
                           (elements (Receiver.recent s))).
  split; [done|]. split; [|done].
  intros k. rewrite Hrec. split; intros [Hk H]; (split; [done|]).
  - apply H. by apply elem_of_elements.
  - by intros _.
Qed.

(** Three ids in [recent]: 1 is due, 4 is not, 7 is not cached. *)
Lemma receiver_periodic_pass_flushes_exactly_the_due_witness :
  let d1 := mkDataSource 1 "foo.bar" 100 [1; 2]%float in
  let d4 := mkDataSource 4 "foo.baz" 145 [3]%float in
  let s := Receiver.mkState {[ 1 := d1; 4 := d4 ]} {[ 1; 4; 7 ]} [] [] in
  let sbf := shouldBeFlushed_contract 150 in
  exists s' l,
    Receiver.workerPeriodicFlush sbf false "w" s 10 100 5 = Done s'
    /\ (forall k, k ∈ Receiver.recent s' <->
          k ∈ Receiver.recent s
          /\ exists d, Receiver.dss s !! k = Some d
                       /\ sbf d 5 10 10 = false)
    /\ Receiver.flushed s' = Receiver.flushed s ++ l
    /\ l ≡ₚ (fun k => (k, false))
            <$> filter (fun k => periodic_due sbf (Receiver.dss s) 5 10 k
                                 = true)
                       (elements (Receiver.recent s)).
Proof.
  intros d1 d4 s sbf.
  apply (receiver_periodic_pass_flushes_exactly_the_due sbf false "w" s
           10 100 5).
  intros k d Hd. cbn in Hd.
  apply lookup_insert_Some in Hd as [[<- <-]|[_ Hd]]; [reflexivity|].
  apply lookup_singleton_Some in Hd as [<- <-]. reflexivity.
Defined.

(** The periodic pass only appends calls [flushDs(rds, false)]. *)
Lemma receiver_periodic_appends sbf debug ident s minCacheDur maxCacheDur
    maxPoints :
  exists s' l,
    Receiver.workerPeriodicFlush sbf debug ident s minCacheDur maxCacheDur
                                 maxPoints = Done s'
    /\ Receiver.dss s' = Receiver.dss s
    /\ Receiver.flushed s' = Receiver.flushed s ++ l
    /\ Forall (fun e : Z * bool => e.2 = false) l.
Proof.
  unfold Receiver.workerPeriodicFlush.
  destruct (rangeLoop_post Receiver.recent
              (Receiver.periodicBody sbf debug ident minCacheDur maxCacheDur
                                     maxPoints)
              (fun s' => Receiver.dss s' = Receiver.dss s
                         /\ exists l, Receiver.flushed s'
                                      = Receiver.flushed s ++ l
                                      /\ Forall (fun e : Z * bool =>
                                                   e.2 = false) l)
              (fun _ _ => True))
    with (keys := elements (Receiver.recent s)) (s := s)
    as (s' & Hrun & [Hdss (l & Hl & Hall)] & _).
  - intros k s1 [Hdss (l & Hl & Hall)] Hk. unfold Receiver.periodicBody.
    destruct (Receiver.dss s1 !! k) as [d|] eqn:Hd.
    + destruct (sbf d maxPoints minCacheDur minCacheDur).
      * eexists; split; [done|]. cbn.
        split; [|split; [by apply subseteq_difference_l|done]].
        split; [done|]. exists (l ++ [(k, false)]).
        rewrite Hl, app_assoc. split; [done|].
        apply Forall_app. split; [done|]. by repeat constructor.
      * exists s1. split; [done|]. split; [|done]. split; [done|]. by exists l.
    + eexists; split; [done|]. cbn.
      split; [|split; [by apply subseteq_difference_l|done]].
      split; [done|]. by exists l.
  - split; [done|]. exists []. by rewrite app_nil_r.
  - by exists s', l.
Qed.

(** X18: a run of the worker of [receiver/worker.go]. On any sequence of
    ticks, data points and a close, as long as every data point refers to
    a cached data source, the worker neither panics nor blocks, the ids of
    the cache stay the same, and all it does to the flusher is to append
    calls [flushDs(rds, false)]. *)
Theorem receiver_worker_keeps_cache_ids_and_flushes_unblocked
    (sbf : trDataSource -> Z -> Z -> Z -> bool)
    (pidp : trDataSource -> float -> Z -> option trDataSource)
    (debug : bool) (ident : string) (minCacheDur maxCacheDur maxPoints : Z)
    (sels : list Receiver.selected) (s : Receiver.state) :
  (forall dpds, Receiver.WorkerCh (Some dpds) ∈ sels ->
                is_Some (Receiver.dss s !! Receiver.rds dpds)) ->
  exists s' l,
    Receiver.worker sbf pidp debug ident minCacheDur maxCacheDur maxPoints
                    sels s = Done s'
    /\ (forall k, is_Some (Receiver.dss s' !! k)
                  <-> is_Some (Receiver.dss s !! k))
    /\ Receiver.flushed s' = Receiver.flushed s ++ l
    /\ Forall (fun e : Z * bool => e.2 = false) l.
Proof.
  revert s. induction sels as [|sel sels IH]; intros s Hsel.
  - exists s, []. by rewrite app_nil_r.
  - assert (Hnext : forall s1,
              (forall k, is_Some (Receiver.dss s1 !! k)
                         <-> is_Some (Receiver.dss s !! k)) ->
              forall dpds, Receiver.WorkerCh (Some dpds) ∈ sels ->
                           is_Some (Receiver.dss s1 !! Receiver.rds dpds)).
    { intros s1 Hdom dpds Hin. apply Hdom, Hsel. by right. }
    cbn [Receiver.worker]. destruct sel as [|[dpds|]].
    + cbn [Receiver.worker_iter].
      destruct (receiver_periodic_appends sbf debug ident s minCacheDur
                  maxCacheDur maxPoints) as (s1 & l1 & -> & Hdss & Hl1 & Hall1).
      cbn [obind snd fst].
      destruct (IH s1) as (s' & l & -> & Hdom & Hl & Hall).
      { apply Hnext. intros k. by rewrite Hdss. }
      exists s', (l1 ++ l). split; [done|]. split.
      * intros k. by rewrite Hdom, Hdss.
      * rewrite Hl, Hl1, app_assoc. split; [done|]. by apply Forall_app.
    + cbn [Receiver.worker_iter].
      destruct (Hsel dpds) as [d Hd]; [by left|]. rewrite Hd.
      assert (Hins : forall d' k,
                 is_Some (<[Receiver.rds dpds := d']> (Receiver.dss s) !! k)
                 <-> is_Some (Receiver.dss s !! k)).
      { intros d' k. destruct (decide (k = Receiver.rds dpds)) as [->|Hne].
        - rewrite lookup_insert_eq, Hd. split; by eexists.
        - by rewrite lookup_insert_ne. }
      destruct (pidp d _ _) as [d'|].
      * destruct (sbf d' maxPoints minCacheDur maxCacheDur);
          cbn [obind snd fst].
        -- match goal with
           | |- context [Receiver.worker _ _ _ _ _ _ _ sels ?s1] =>
               destruct (IH s1) as (s' & l & -> & Hdom & Hl & Hall)
           end.
           { apply Hnext. cbn. apply Hins. }
           cbn in Hdom, Hl.
           exists s', ([(Receiver.rds dpds, false)] ++ l).
           split; [done|]. split.
           ++ intros k. by rewrite Hdom, Hins.
           ++ rewrite Hl, app_assoc. split; [done|].
              apply Forall_app. split; [by repeat constructor|done].
        -- match goal with
           | |- context [Receiver.worker _ _ _ _ _ _ _ sels ?s1] =>
               destruct (IH s1) as (s' & l & -> & Hdom & Hl & Hall)
           end.
           { apply Hnext. cbn. apply Hins. }
           cbn in Hdom, Hl. exists s', l. split; [done|]. split; [|done].
           intros k. by rewrite Hdom, Hins.
      * cbn [obind snd fst].
        match goal with
        | |- context [Receiver.worker _ _ _ _ _ _ _ sels ?s1] =>
            destruct (IH s1) as (s' & l & -> & Hdom & Hl & Hall)
        end.
        { apply Hnext. by cbn. }
        cbn in Hdom, Hl. by exists s', l.
    + cbn. exists s, []. by rewrite app_nil_r.
Qed.

(** A point, a tick, a point, the close and a point nobody reads. *)
Lemma receiver_worker_keeps_cache_ids_and_flushes_unblocked_witness :
  let d1 := mkDataSource 1 "foo.bar" 100 [1; 2]%float in
  let s := Receiver.mkState {[ 1 := d1 ]} ∅ [] [] in
  let sels := [Receiver.WorkerCh (Some (Receiver.mkIncoming 3 150 1));
               Receiver.PeriodicFlushCheck;
               Receiver.WorkerCh (Some (Receiver.mkIncoming 4 160 1));
               Receiver.WorkerCh None] in
  exists s' l,
    Receiver.worker (shouldBeFlushed_contract 150)
                    (fun d v _ => process_append v d) false "w" 10 100 4
                    sels s = Done s'
    /\ (forall k, is_Some (Receiver.dss s' !! k)
                  <-> is_Some (Receiver.dss s !! k))
    /\ Receiver.flushed s' = Receiver.flushed s ++ l
    /\ Forall (fun e : Z * bool => e.2 = false) l.
Proof.
  intros d1 s sels.
  apply (receiver_worker_keeps_cache_ids_and_flushes_unblocked
           (shouldBeFlushed_contract 150) (fun d v _ => process_append v d)
           false "w" 10 100 4 sels s).
  intros dpds Hin.
  assert (Receiver.rds dpds = 1) as ->.
  { repeat (apply elem_of_cons in Hin as [Hin|Hin];
            [try discriminate; by injection Hin as ->|]).
    by apply elem_of_nil in Hin. }
  by eexists.
Defined.

(** ** The flushers and the shutdown *)

Lemma flusher_loop_taken fds (l : list trDataSource) tail :
  flusher_loop fds ((Some <$> l) ++ tail)
  = ((fun d => match fds d with
               | None => Flushed d
               | Some err => FlushError d err
               end) <$> l)
    ++ flusher_loop fds tail.
Proof. induction l as [|d l IH]; [done|]. cbn. by rewrite IH. Qed.

Lemma stored_app evs1 evs2 : stored (evs1 ++ evs2) = stored evs1 ++ stored evs2.
Proof. unfold stored. apply omap_app. Qed.

Lemma stored_results fds (l : list trDataSource) :
  stored ((fun d => match fds d with
                    | None => Flushed d
                    | Some err => FlushError d err
                    end) <$> l) = l.
Proof.
  unfold stored. induction l as [|d l IH]; [done|]. cbn.
  destruct (fds d); cbn; by f_equal.
Qed.

(** X19: a flusher writes all it receives. Whatever the storage backend
    answers, [flusher(id)] calls [flushDataSource] on every snapshot handed
    to its channel, in the order of arrival, logs an error for exactly
    those the backend rejects, and exits only when the channel is
    closed. *)
Theorem flusher_writes_all_it_receives
    (fds : trDataSource -> option string) (t : Transceiver.trTransceiver)
    (id : Z) (c : chan trDataSource) :
  index (Transceiver.flusherChs t) id = Done c ->
  exists evs,
    flusher fds t id = Done evs
    /\ stored evs = ch_taken c
    /\ (forall d err, FlushError d err ∈ evs
                      <-> d ∈ ch_taken c /\ fds d = Some err)
    /\ (FlusherExit ∈ evs <-> ch_closed c = true).
Proof.
  intros Hc. unfold flusher. rewrite Hc. cbn [obind].
  eexists; split; [reflexivity|]. unfold received.
  rewrite flusher_loop_taken.
  set (res := fun d => match fds d with
                       | None => Flushed d
                       | Some err => FlushError d err
                       end).
  assert (Htail : forall e, e ∈ flusher_loop fds
                                  (if ch_closed c then [None] else [])
                            <-> e = FlusherExit /\ ch_closed c = true).
  { intros e. destruct (ch_closed c); cbn.
    - rewrite list_elem_of_singleton. split; [by intros ->|by intros [-> _]].
    - split; [by intros ?%elem_of_nil|by intros [_ ?]]. }
  split; [|split].
  - subst res. rewrite stored_app, stored_results.
    destruct (ch_closed c); cbn; by rewrite app_nil_r.
  - intros d err. rewrite elem_of_app, Htail, list_elem_of_fmap. split.
    + intros [(d0 & Heq & Hin)|[? _]]; [|done].
      subst res. cbn in Heq. destruct (fds d0) eqn:E; [|done].
      by injection Heq as -> ->.
    + intros [Hin Herr]. left. exists d. split; [|done].
      subst res. cbn. by rewrite Herr.
  - rewrite elem_of_app, Htail, list_elem_of_fmap. split.
    + intros [(d0 & Heq & _)|[_ ?]]; [|done].
      subst res. cbn in Heq. by destruct (fds d0).
    + intros Hcl. by right.
Qed.

(** A flusher handed two snapshots, the backend rejecting the first. *)
Lemma flusher_writes_all_it_receives_witness :
  let d1 := mkDataSource 1 "foo.bar" 100 [1; 2]%float in
  let d4 := mkDataSource 4 "foo.baz" 120 [3]%float in
  let c := mkChan 0%nat [] true [d1; d4] true in
  let t := Transceiver.mkTransceiver ∅ [c] [] [] in
  let fds := fun d => if Id d =? 1 then Some "disk full" else None in
  exists evs,
    flusher fds t 0 = Done evs
    /\ stored evs = [d1; d4]
    /\ (forall d err, FlushError d err ∈ evs
                      <-> d ∈ [d1; d4] /\ fds d = Some err)
    /\ (FlusherExit ∈ evs <-> true = true).
Proof.
  intros d1 d4 c t fds.
  exact (flusher_writes_all_it_receives fds t 0 c eq_refl).
Defined.

Lemma close_all_open {A} (chs : list (chan A)) :
  Forall (fun c => ch_closed c = false) chs ->
  close_all chs = Done (closed_chan <$> chs).
Proof.
  induction 1 as [|c chs Hc _ IH]; [done|].
  cbn [close_all]. unfold chan_close. rewrite Hc. cbn [obind].
  rewrite IH. done.
Qed.

(** X20: nothing is lost at shutdown. With a registry that files data
    sources under their non-negative ids and the flushers at their
    receive: once the worker has met its closed inbox and [stopFlushers]
    has closed the flusher channels, the flusher of its shard calls
    [flushDataSource] on the snapshot of every data source that was in
    [recent], and then exits. *)
Theorem final_pass_reaches_the_storage
    (sbf : Z -> trDataSource -> bool)
    (pr : trDataPoint -> trDataSource -> option trDataSource)
    (fds : trDataSource -> option string)
    (cfg : Config) (now id : Z) (rest : list Transceiver.selected)
    (w : Transceiver.wstate) :
  registry_ok (Transceiver.dss (Transceiver.tr w)) ->
  flushers_ready cfg (Transceiver.tr w) ->
  exists w' t',
    Transceiver.worker sbf pr cfg now id (Transceiver.WorkerCh None :: rest) w
    = Done w'
    /\ stopFlushers (Transceiver.tr w') = Done t'
    /\ forall k d, k ∈ Transceiver.recent w ->
         Transceiver.dss (Transceiver.tr w) !! k = Some d ->
         exists evs,
           flusher fds t' (k mod Workers cfg) = Done evs
           /\ mostlyCopy d ∈ stored evs
           /\ FlusherExit ∈ evs.
Proof.
  intros Hok Hrdy.
  destruct (transceiver_pass_exact sbf cfg now id true w Hok Hrdy)
    as (w' & Hrun & _ & Hrdy' & _ & Hfl & _).
  destruct Hrdy' as (HW & Hlen & Hall).
  assert (Hopen : Forall (fun c : chan trDataSource => ch_closed c = false)
                         (Transceiver.flusherChs (Transceiver.tr w'))).
  { eapply Forall_impl; [exact Hall|]. by intros c [_ ?]. }
  exists w'. eexists. cbn [Transceiver.worker Transceiver.worker_iter].
  rewrite Hrun. cbn. split; [done|].
  unfold stopFlushers. rewrite (close_all_open _ Hopen). cbn [obind].
  split; [reflexivity|].
  intros k d Hk Hd.
  destruct (Hfl k d Hk Hd eq_refl) as [(c & Hc & Hin) _].
  destruct (Hok k d Hd) as [_ Hrange].
  assert (Hm : 0 <= k mod Workers cfg < Workers cfg)
    by (apply Z.mod_pos_bound; lia).
  assert (Hidx : index (closed_chan
                          <$> Transceiver.flusherChs (Transceiver.tr w'))
                       (k mod Workers cfg) = Done (closed_chan c)).
  { unfold index. destruct (k mod Workers cfg <? 0) eqn:E; [lia|].
    by rewrite list_lookup_fmap, Hc. }
  destruct (flusher_writes_all_it_receives fds
              (Transceiver.mkTransceiver
                 (Transceiver.dss (Transceiver.tr w'))
                 (closed_chan <$> Transceiver.flusherChs (Transceiver.tr w'))
                 (Transceiver.dsCopyChs (Transceiver.tr w'))
                 (Transceiver.log (Transceiver.tr w')))
              (k mod Workers cfg) (closed_chan c) Hidx)
    as (evs & Hev & Hst & _ & Hexit).
  exists evs. split; [done|]. split.
  - by rewrite Hst.
  - by apply Hexit.
Qed.

(** One shard, the data sources 1 and 4 in [recent], a backend that
    accepts everything. *)
Lemma final_pass_reaches_the_storage_witness :
  let cfg := mkConfig 1 10 100 1000000000 "s" in
  let d1 := mkDataSource 1 "foo.bar" 100 [1; 2]%float in
  let d4 := mkDataSource 4 "foo.baz" 120 [3]%float in
  let c := Transceiver.parked (make_chan 0) in
  let w := Transceiver.mkW
             (Transceiver.mkTransceiver {[ 1 := d1; 4 := d4 ]} [c] [] [])
             {[ 1; 4 ]} in
  exists w' t',
    Transceiver.worker (fun _ _ => false) (fun _ d => Some d) cfg 150 0
                       [Transceiver.WorkerCh None] w = Done w'
    /\ stopFlushers (Transceiver.tr w') = Done t'
    /\ forall k d, k ∈ Transceiver.recent w ->
         Transceiver.dss (Transceiver.tr w) !! k = Some d ->
         exists evs,
           flusher (fun _ => None) t' (k mod Workers cfg) = Done evs
           /\ mostlyCopy d ∈ stored evs
           /\ FlusherExit ∈ evs.
Proof.
  intros cfg d1 d4 c w.
  apply (final_pass_reaches_the_storage
           (fun _ _ => false) (fun _ d => Some d) (fun _ => None)
           cfg 150 0 [] w).
  - intros k d Hd. cbn in Hd.
    apply lookup_insert_Some in Hd as [[<- <-]|[_ Hd]].
    + vm_compute. repeat split; discriminate.
    + apply lookup_singleton_Some in Hd as [<- <-].
      vm_compute. repeat split; discriminate.
  - split; [reflexivity|]. split; [reflexivity|].
    repeat constructor.
Defined.

(** X21: [stopWorkers] closes drained channels only. On open worker
    channels it keeps polling ([Blocked]) as long as one of them holds a
    data point; once all are empty it closes every one of them, and the
    next receive of each worker reports the close with nothing lost. *)
Theorem stopWorkers_closes_only_drained_channels
    (workerChs : list (chan trDataPoint)) :
  Forall (fun c => ch_closed c = false) workerChs ->
  if forallb (fun c => (chan_len c =? 0)%nat) workerChs
  then exists chs',
         stopWorkers workerChs = Done chs'
         /\ length chs' = length workerChs
         /\ forall c', c' ∈ chs' -> chan_recv c' = Done (None, c')
  else stopWorkers workerChs = Blocked.
Proof.
  intros Hopen. unfold stopWorkers.
  destruct (forallb _ workerChs) eqn:Hempty; [|done].
  rewrite (close_all_open _ Hopen). eexists; split; [reflexivity|].
  split; [by rewrite length_fmap|].
  intros c' (c & -> & Hc)%list_elem_of_fmap.
  rewrite forallb_forall in Hempty.
  assert (Hlen : (chan_len c =? 0)%nat = true).
  { apply Hempty. by apply list_elem_of_In. }
  apply Nat.eqb_eq in Hlen. unfold chan_len in Hlen.
  unfold chan_recv, closed_chan. cbn.
  by destruct (ch_buf c).
Qed.

(** Two drained channels are closed; with a point pending, none is. *)
Lemma stopWorkers_closes_only_drained_channels_witness :
  let dp := mkDataPoint "foo.bar" 150 3 (Some 1) in
  (exists chs',
      stopWorkers [make_chan 1024; make_chan 1024] = Done chs'
      /\ length chs' = 2%nat
      /\ forall c', c' ∈ chs' -> chan_recv c' = Done (None, c'))
  /\ stopWorkers [make_chan 1024; mkChan 1024 [dp] false [] false] = Blocked.
Proof.
  intros dp. split.
  - apply (stopWorkers_closes_only_drained_channels
             [make_chan 1024; make_chan 1024]).
    repeat constructor.
  - apply (stopWorkers_closes_only_drained_channels
             [make_chan 1024; mkChan 1024 [dp] false [] false]).
    repeat constructor.
Defined.

(** X22: the order of the shutdown matters. After [stopFlushers] a flush
    of a registered data source panics on its send: the workers must have
    finished their final pass before the flusher channels are closed, as
    the dispatcher arranges by stopping the workers first. *)
Theorem flushDs_after_stopFlushers_panics (cfg : Config) (now : Z)
    (t : Transceiver.trTransceiver) (p : Z) (d : trDataSource) :
  registry_ok (Transceiver.dss t) -> flushers_ready cfg t ->
  Transceiver.dss t !! p = Some d ->
  exists t',
    stopFlushers t = Done t'
    /\ Transceiver.flushDs cfg now t' p = Panic "send on closed channel".
Proof.
  intros Hok (HW & Hlen & Hall) Hd.
  assert (Hopen : Forall (fun c : chan trDataSource => ch_closed c = false)
                         (Transceiver.flusherChs t)).
  { eapply Forall_impl; [exact Hall|]. by intros c [_ ?]. }
  unfold stopFlushers. rewrite (close_all_open _ Hopen). cbn [obind].
  eexists; split; [reflexivity|].
  destruct (Hok p d Hd) as [HId Hrange].
  assert (Hm : 0 <= p mod Workers cfg < Workers cfg)
    by (apply Z.mod_pos_bound; lia).
  assert (Hlt : (Z.to_nat (p mod Workers cfg)
                 < length (Transceiver.flusherChs t))%nat) by lia.
  destruct (lookup_lt_is_Some_2 _ _ Hlt) as [c Hc].
  unfold Transceiver.flushDs. cbn [Transceiver.dss Transceiver.flusherChs].
  rewrite Hd, HId, shard_nonneg by done. cbn [obind].
  unfold index. destruct (p mod Workers cfg <? 0) eqn:E; [lia|].
  rewrite list_lookup_fmap, Hc. cbn. done.
Qed.

(** One shard, the data source 1. *)
Lemma flushDs_after_stopFlushers_panics_witness :
  let cfg := mkConfig 1 10 100 1000000000 "s" in
  let d1 := mkDataSource 1 "foo.bar" 100 [1; 2]%float in
  let t := Transceiver.mkTransceiver {[ 1 := d1 ]}
             [Transceiver.parked (make_chan 0)] [] [] in
  exists t',
    stopFlushers t = Done t'
    /\ Transceiver.flushDs cfg 150 t' 1 = Panic "send on closed channel".
Proof.
  intros cfg d1 t.
  apply (flushDs_after_stopFlushers_panics cfg 150 t 1 d1).
  - intros k d Hd. cbn in Hd.
    apply lookup_singleton_Some in Hd as [<- <-].
    vm_compute. repeat split; discriminate.
  - split; [reflexivity|]. split; [reflexivity|]. repeat constructor.
  - reflexivity.
Defined.

(** ** The dispatcher *)

Lemma getByName_Some m nm p :
  Dispatcher.getByName m nm = Some p ->
  exists d, m !! p = Some d /\ DsName d = nm.
Proof.
  unfold Dispatcher.getByName.
  destruct (list_find _ _) as [[i [k d]]|] eqn:E; [|done].
  intros [= <-]. apply list_find_Some in E as (Hl & Hn & _).
  exists d. split; [|done].
  apply elem_of_map_to_list. by eapply list_elem_of_lookup_2.
Qed.

Lemma getByName_None m nm :
  Dispatcher.getByName m nm = None <->
  forall k d, m !! k = Some d -> DsName d <> nm.
Proof.
  unfold Dispatcher.getByName. rewrite fmap_None, list_find_None.
  rewrite Forall_forall. split.
  - intros H k d Hd. apply (H (k, d)). by apply elem_of_map_to_list.
  - intros H [k d] Hin. apply (H k d). by apply elem_of_map_to_list.
Qed.

(** X23: a data point that resolves to no data source is dropped. When no
    registered data source bears its name and either no spec matches the
    name or [createDataSource] fails, the dispatcher goes on with the
    registry and every worker channel as they were; only the failure of
    [createDataSource] is logged. *)
Theorem dispatcher_drops_unresolved_points (dsSpec : Type)
    (find : string -> option dsSpec)
    (create : string -> dsSpec -> string + trDataSource)
    (cfg : Config) (dp : trDataPoint) (s : Dispatcher.state) :
  (forall k d, Transceiver.dss (Dispatcher.tr s) !! k = Some d ->
               DsName d <> Name dp) ->
  (forall spec d, find (Name dp) = Some spec ->
                  create (Name dp) spec <> inr d) ->
  exists s',
    Dispatcher.dispatcher_iter dsSpec find create cfg dp s = Done s'
    /\ Dispatcher.tr s' = Dispatcher.tr s
    /\ Dispatcher.workerChs s' = Dispatcher.workerChs s
    /\ Dispatcher.dlog s'
       = Dispatcher.dlog s
         ++ match find (Name dp) with
            | Some spec =>
                match create (Name dp) spec with
                | inl err => [Dispatcher.LogCreateError err]
                | inr _ => []
                end
            | None => []
            end.
Proof.
  intros Hno Hcreate. apply getByName_None in Hno.
  unfold Dispatcher.dispatcher_iter. rewrite Hno.
  destruct (find (Name dp)) as [spec|] eqn:Hf.
  - destruct (create (Name dp) spec) as [err|d] eqn:Hc.
    + by eexists.
    + by destruct (Hcreate spec d eq_refl).
  - exists s. by rewrite app_nil_r.
Qed.

(** A name no spec matches, and a name whose creation fails. *)
Lemma dispatcher_drops_unresolved_points_witness :
  let cfg := mkConfig 2 0 0 1000000000 "s" in
  let s := Dispatcher.mkState (Transceiver.mkTransceiver ∅ [] [] [])
                              (Dispatcher.make_workerChs cfg) [] in
  let find := fun nm : string => if decide (nm = "foo.bar") then Some tt
                                 else None in
  let create := fun (nm : string) (_ : unit) =>
                  inl "no disk" : string + trDataSource in
  (exists s',
      Dispatcher.dispatcher_iter unit find create cfg
        (mkDataPoint "other" 0 1 None) s = Done s'
      /\ Dispatcher.tr s' = Dispatcher.tr s
      /\ Dispatcher.workerChs s' = Dispatcher.workerChs s
      /\ Dispatcher.dlog s' = [])
  /\ (exists s',
         Dispatcher.dispatcher_iter unit find create cfg
           (mkDataPoint "foo.bar" 0 1 None) s = Done s'
         /\ Dispatcher.tr s' = Dispatcher.tr s
         /\ Dispatcher.workerChs s' = Dispatcher.workerChs s
         /\ Dispatcher.dlog s' = [Dispatcher.LogCreateError "no disk"]).
Proof.
  intros cfg s find create. split.
  - apply (dispatcher_drops_unresolved_points unit find create cfg
             (mkDataPoint "other" 0 1 None) s).
    + intros k d Hd. cbn in Hd. by rewrite lookup_empty in Hd.
    + intros spec d Hf. discriminate.
  - apply (dispatcher_drops_unresolved_points unit find create cfg
             (mkDataPoint "foo.bar" 0 1 None) s).
    + intros k d Hd. cbn in Hd. by rewrite lookup_empty in Hd.
    + intros spec d Hf. discriminate.
Defined.

Lemma forward_ready cfg dp p d s :
  registry_ok (Transceiver.dss (Dispatcher.tr s)) -> workers_ready cfg s ->
  Transceiver.dss (Dispatcher.tr s) !! p = Some d ->
  exists c,
    Dispatcher.workerChs s !! Z.to_nat (p mod Workers cfg) = Some c
    /\ Dispatcher.forward cfg dp p s
       = Done (Dispatcher.mkState (Dispatcher.tr s)
                 (<[Z.to_nat (p mod Workers cfg) :=
                      mkChan (ch_cap c)
                        (ch_buf c
                           ++ [mkDataPoint (Name dp) (TimeStamp dp) (Value dp)
                                           (Some p)])
                        false (ch_taken c) false]>
                    (Dispatcher.workerChs s))
                 (Dispatcher.dlog s)).
Proof.
  intros Hok (HW & Hlen & Hall) Hd.
  destruct (Hok p d Hd) as [HId Hrange].
  assert (Hm : 0 <= p mod Workers cfg < Workers cfg)
    by (apply Z.mod_pos_bound; lia).
  assert (Hlt : (Z.to_nat (p mod Workers cfg)
                 < length (Dispatcher.workerChs s))%nat) by lia.
  destruct (lookup_lt_is_Some_2 _ _ Hlt) as [c Hc].
  assert (Hcok : ch_closed c = false /\ ch_recv c = false
                 /\ (length (ch_buf c) < ch_cap c)%nat).
  { eapply Forall_lookup_1 in Hall; [exact Hall|exact Hc]. }
  destruct Hcok as (Hcl & Hrv & Hroom).
  exists c. split; [done|].
  unfold Dispatcher.forward. rewrite Hd, HId.
  rewrite shard_nonneg by done. cbn [obind].
  unfold index. destruct (p mod Workers cfg <? 0) eqn:E; [lia|].
  rewrite Hc. cbn [obind]. unfold chan_send. rewrite Hcl, Hrv.
  apply Nat.ltb_lt in Hroom. rewrite Hroom. cbn [obind]. done.
Qed.

(** X24: a data point for a registered name. With a registry that files
    data sources under their non-negative ids and worker channels with
    room left, the dispatcher attaches the data source registered under
    the name and queues the point on the worker channel [Id mod N] of that
    data source; the registry and the other channels stay as they are. *)
Theorem dispatcher_routes_known_name_to_its_shard (dsSpec : Type)
    (find : string -> option dsSpec)
    (create : string -> dsSpec -> string + trDataSource)
    (cfg : Config) (dp : trDataPoint) (s : Dispatcher.state)
    (k : Z) (d0 : trDataSource) :
  registry_ok (Transceiver.dss (Dispatcher.tr s)) -> workers_ready cfg s ->
  Transceiver.dss (Dispatcher.tr s) !! k = Some d0 -> DsName d0 = Name dp ->
  exists p d c,
    Transceiver.dss (Dispatcher.tr s) !! p = Some d
    /\ DsName d = Name dp
    /\ Dispatcher.workerChs s !! Z.to_nat (p mod Workers cfg) = Some c
    /\ Dispatcher.dispatcher_iter dsSpec find create cfg dp s
       = Done (Dispatcher.mkState (Dispatcher.tr s)
                 (<[Z.to_nat (p mod Workers cfg) :=
                      mkChan (ch_cap c)
                        (ch_buf c
                           ++ [mkDataPoint (Name dp) (TimeStamp dp) (Value dp)
                                           (Some p)])
                        false (ch_taken c) false]>
                    (Dispatcher.workerChs s))
                 (Dispatcher.dlog s)).
Proof.
  intros Hok Hrdy Hk Hname.
  unfold Dispatcher.dispatcher_iter.
  destruct (Dispatcher.getByName _ _) as [p|] eqn:Hg.
  - destruct (getByName_Some _ _ _ Hg) as (d & Hd & Hn).
    destruct (forward_ready cfg dp p d s Hok Hrdy Hd) as (c & Hc & Hfw).
    by exists p, d, c.
  - pose proof (proj1 (getByName_None _ _) Hg) as Hg'.
    by destruct (Hg' k d0 Hk).
Qed.

(** Two workers, the data source 3 registered as [foo.bar]: shard 1. *)
Lemma dispatcher_routes_known_name_to_its_shard_witness :
  let cfg := mkConfig 2 0 0 1000000000 "s" in
  let d3 := mkDataSource 3 "foo.bar" 100 [] in
  let s := Dispatcher.mkState (Transceiver.mkTransceiver {[ 3 := d3 ]} [] [] [])
                              (Dispatcher.make_workerChs cfg) [] in
  let dp := mkDataPoint "foo.bar" 150 5 None in
  exists p d c,
    Transceiver.dss (Dispatcher.tr s) !! p = Some d
    /\ DsName d = Name dp
    /\ Dispatcher.workerChs s !! Z.to_nat (p mod Workers cfg) = Some c
    /\ Dispatcher.dispatcher_iter unit (fun _ => None)
         (fun _ _ => inl "unused") cfg dp s
       = Done (Dispatcher.mkState (Dispatcher.tr s)
                 (<[Z.to_nat (p mod Workers cfg) :=
                      mkChan (ch_cap c)
                        (ch_buf c
                           ++ [mkDataPoint (Name dp) (TimeStamp dp) (Value dp)
                                           (Some p)])
                        false (ch_taken c) false]>
                    (Dispatcher.workerChs s))
                 (Dispatcher.dlog s)).
Proof.
  intros cfg d3 s dp.
  apply (dispatcher_routes_known_name_to_its_shard unit (fun _ => None)
           (fun _ _ => inl "unused") cfg dp s 3 d3).
  - intros k d Hd. cbn in Hd.
    apply lookup_singleton_Some in Hd as [<- <-].
    vm_compute. repeat split; discriminate.
  - split; [reflexivity|]. split; [reflexivity|].
    repeat constructor; apply Nat.ltb_lt; reflexivity.
  - reflexivity.
  - reflexivity.
Defined.

(** X25: at most one creation per name. When a data point bears a name no
    registered data source has, a spec matches and [createDataSource]
    returns a data source of that name, the dispatcher registers it under
    its id and queues the point, with that data source attached, on the
    worker channel [Id mod N]; nothing else changes. From then on a data
    point of the same name is queued behind it on the same channel (or the
    dispatcher blocks, if the channel is full), whatever
    [findMatchingDsSpec] and [createDataSource] would answer: they are not
    asked again and the registry stays as it is. *)
Theorem dispatcher_creates_once_per_name (dsSpec : Type)
    (find : string -> option dsSpec)
    (create : string -> dsSpec -> string + trDataSource)
    (cfg : Config) (dp : trDataPoint) (s : Dispatcher.state)
    (spec : dsSpec) (d : trDataSource) :
  registry_ok (Transceiver.dss (Dispatcher.tr s)) -> workers_ready cfg s ->
  (forall k e, Transceiver.dss (Dispatcher.tr s) !! k = Some e ->
               DsName e <> Name dp) ->
  find (Name dp) = Some spec -> create (Name dp) spec = inr d ->
  DsName d = Name dp -> 0 <= Id d <= Int64.max_int ->
  exists c,
    Dispatcher.workerChs s !! Z.to_nat (Id d mod Workers cfg) = Some c
    /\ let i := Z.to_nat (Id d mod Workers cfg) in
       let t' := Transceiver.mkTransceiver
                   (<[Id d := d]> (Transceiver.dss (Dispatcher.tr s)))
                   (Transceiver.flusherChs (Dispatcher.tr s))
                   (Transceiver.dsCopyChs (Dispatcher.tr s))
                   (Transceiver.log (Dispatcher.tr s)) in
       let queued := fun q : trDataPoint =>
                       mkDataPoint (Name q) (TimeStamp q) (Value q)
                                   (Some (Id d)) in
       let s' := Dispatcher.mkState t'
                   (<[i := mkChan (ch_cap c) (ch_buf c ++ [queued dp])
                                  false (ch_taken c) false]>
                      (Dispatcher.workerChs s))
                   (Dispatcher.dlog s) in
       Dispatcher.dispatcher_iter dsSpec find create cfg dp s = Done s'
       /\ forall (dsSpec' : Type) (find' : string -> option dsSpec')
                 (create' : string -> dsSpec' -> string + trDataSource)
                 (dp2 : trDataPoint),
            Name dp2 = Name dp ->
            Dispatcher.dispatcher_iter dsSpec' find' create' cfg dp2 s'
            = if (length (ch_buf c) + 1 <? ch_cap c)%nat
              then Done (Dispatcher.mkState t'
                           (<[i := mkChan (ch_cap c)
                                     (ch_buf c ++ [queued dp; queued dp2])
                                     false (ch_taken c) false]>
                              (Dispatcher.workerChs s))
                           (Dispatcher.dlog s))
              else Blocked.
Proof.
  intros Hok Hrdy Hno Hf Hc Hname Hrange.
  pose proof Hno as Hg. apply getByName_None in Hg.
  unfold Dispatcher.dispatcher_iter at 1. rewrite Hg, Hf, Hc.
  set (s1 := Dispatcher.mkState _ _ _).
  assert (Hok1 : registry_ok (Transceiver.dss (Dispatcher.tr s1))).
  { intros j e Hj. subst s1. cbn in Hj. unfold Dispatcher.insert in Hj.
    destruct (decide (j = Id d)) as [->|Hne].
    - rewrite lookup_insert_eq in Hj. by injection Hj as <-.
    - rewrite lookup_insert_ne in Hj by done. by apply Hok. }
  assert (Hrdy1 : workers_ready cfg s1) by exact Hrdy.
  assert (Hd1 : Transceiver.dss (Dispatcher.tr s1) !! Id d = Some d).
  { subst s1. cbn. unfold Dispatcher.insert. by rewrite lookup_insert_eq. }
  destruct (forward_ready cfg dp (Id d) d s1 Hok1 Hrdy1 Hd1)
    as (c & Hc1 & Hfw).
  assert (Hg2 : Dispatcher.getByName
                  (Transceiver.dss (Dispatcher.tr s1)) (Name dp)
                = Some (Id d)).
  { destruct (Dispatcher.getByName
                (Transceiver.dss (Dispatcher.tr s1)) (Name dp))
      as [p|] eqn:Hg2.
    - destruct (getByName_Some _ _ _ Hg2) as (e & He & Hen).
      destruct (decide (p = Id d)) as [->|Hne]; [done|].
      subst s1. cbn [Dispatcher.tr Transceiver.dss] in He.
      unfold Dispatcher.insert in He.
      rewrite lookup_insert_ne in He by done.
      by destruct (Hno p e He).
    - pose proof (proj1 (getByName_None _ _) Hg2) as Hg2'.
      by destruct (Hg2' (Id d) d Hd1). }
  exists c. split; [exact Hc1|]. cbn zeta.
  split; [exact Hfw|].
  intros T find' create' dp2 Hn2.
  destruct Hrdy as (HW & Hlen & Hall).
  assert (Hlt : (Z.to_nat (Id d mod Workers cfg)
                 < length (Dispatcher.workerChs s))%nat)
    by (by eapply lookup_lt_Some).
  rewrite <- Hn2 in Hg2.
  unfold Dispatcher.dispatcher_iter. cbn [Dispatcher.tr Transceiver.dss].
  change (Dispatcher.getByName _ (Name dp2)) with
    (Dispatcher.getByName (Transceiver.dss (Dispatcher.tr s1)) (Name dp2)).
  rewrite Hg2. unfold Dispatcher.forward.
  cbn [Dispatcher.tr Transceiver.dss Dispatcher.workerChs Dispatcher.dlog].
  rewrite lookup_insert_eq. rewrite shard_nonneg by done. cbn [obind].
  unfold index.
  assert (Hm : 0 <= Id d mod Workers cfg < Workers cfg)
    by (apply Z.mod_pos_bound; lia).
  destruct (Id d mod Workers cfg <? 0) eqn:E; [lia|].
  rewrite list_lookup_insert_eq by done. cbn [obind].
  unfold chan_send. cbn [ch_closed ch_recv ch_buf ch_cap ch_taken].
  rewrite length_app. cbn [length].
  destruct (_ <? _)%nat; [|done]. cbn [obind]. unfold set_index.
  rewrite list_insert_insert_eq. rewrite <- app_assoc. done.
Qed.

(** An empty registry, the name [foo.bar] created with the id 3: both
    points go to the worker channel 1. *)
Lemma dispatcher_creates_once_per_name_witness :
  let cfg := mkConfig 2 0 0 1000000000 "s" in
  let d3 := mkDataSource 3 "foo.bar" 0 [] in
  let s := Dispatcher.mkState (Transceiver.mkTransceiver ∅ [] [] [])
                              (Dispatcher.make_workerChs cfg) [] in
  let dp := mkDataPoint "foo.bar" 150 5 None in
  let dp2 := mkDataPoint "foo.bar" 160 6 None in
  let find := fun _ : string => Some tt in
  let create := fun (_ : string) (_ : unit) =>
                  inr d3 : string + trDataSource in
  let t' := Transceiver.mkTransceiver {[ 3 := d3 ]} [] [] [] in
  let s' := Dispatcher.mkState t'
              [make_chan 1024;
               mkChan 1024 [mkDataPoint "foo.bar" 150 5 (Some 3)]
                      false [] false] [] in
  Dispatcher.dispatcher_iter unit find create cfg dp s = Done s'
  /\ Dispatcher.dispatcher_iter unit (fun _ => None)
       (fun _ _ => inl "unused") cfg dp2 s'
     = Done (Dispatcher.mkState t'
               [make_chan 1024;
                mkChan 1024 [mkDataPoint "foo.bar" 150 5 (Some 3);
                             mkDataPoint "foo.bar" 160 6 (Some 3)]
                       false [] false] []).
Proof.
  intros cfg d3 s dp dp2 find create t' s'.
  destruct (dispatcher_creates_once_per_name unit find create cfg dp s tt d3)
    as (c & Hc & Hfirst & Hnext).
  - intros k d Hd. cbn in Hd. by rewrite lookup_empty in Hd.
  - split; [reflexivity|]. split; [reflexivity|].
    repeat constructor; apply Nat.ltb_lt; reflexivity.
  - intros k e Hd. cbn in Hd. by rewrite lookup_empty in Hd.
  - reflexivity.
  - reflexivity.
  - reflexivity.
  - vm_compute. split; discriminate.
  - injection Hc as <-. split; [exact Hfirst|].
    exact (Hnext unit (fun _ => None) (fun _ _ => inl "unused") dp2 eq_refl).
Defined.

Lemma chan_send_elems {A} (c c' : chan A) (v x : A) :
  chan_send c v = Done c' ->
  x ∈ ch_buf c' ++ ch_taken c' <-> x ∈ ch_buf c ++ ch_taken c \/ x = v.
Proof.
  unfold chan_send. destruct (ch_closed c); [done|].
  destruct (ch_recv c).
  - intros [= <-]. cbn. rewrite !elem_of_app, list_elem_of_singleton. tauto.
  - destruct (_ <? _)%nat; [|done].
    intros [= <-]. cbn. rewrite !elem_of_app, list_elem_of_singleton. tauto.
Qed.

Lemma forward_routed cfg dp p s s' :
  0 < Workers cfg ->
  registry_ok (Transceiver.dss (Dispatcher.tr s)) -> routed_ok cfg s ->
  Dispatcher.forward cfg dp p s = Done s' ->
  Dispatcher.tr s' = Dispatcher.tr s /\ routed_ok cfg s'.
Proof.
  intros HW Hok Hrt. unfold Dispatcher.forward.
  destruct (Transceiver.dss (Dispatcher.tr s) !! p) as [d|] eqn:Hd; [|done].
  destruct (Hok p d Hd) as [HId Hrange].
  rewrite HId, shard_nonneg by done. cbn [obind]. unfold index.
  destruct (p mod Workers cfg <? 0) eqn:E; [done|].
  destruct (Dispatcher.workerChs s !! Z.to_nat (p mod Workers cfg))
    as [c|] eqn:Hc; [|done].
  cbn [obind].
  destruct (chan_send c _) as [c'| |] eqn:Hs; [|done..].
  cbn [obind]. intros [= <-]. split; [done|].
  intros i c0 dp0 Hi Hin.
  cbn [Dispatcher.workerChs Dispatcher.tr] in *. unfold set_index in Hi.
  destruct (decide (i = Z.to_nat (p mod Workers cfg))) as [->|Hne].
  - rewrite list_lookup_insert_eq in Hi by (by eapply lookup_lt_Some).
    injection Hi as <-.
    apply (chan_send_elems _ _ _ _ Hs) in Hin as [Hin| ->].
    + by apply (Hrt _ c).
    + by exists p, d.
  - rewrite list_lookup_insert_ne in Hi by done. by apply (Hrt i c0).
Qed.

Lemma dispatcher_iter_routed dsSpec find create cfg dp s s' :
  0 < Workers cfg ->
  (forall nm spec d, create nm spec = inr d -> 0 <= Id d <= Int64.max_int) ->
  registry_ok (Transceiver.dss (Dispatcher.tr s)) -> routed_ok cfg s ->
  Dispatcher.dispatcher_iter dsSpec find create cfg dp s = Done s' ->
  registry_ok (Transceiver.dss (Dispatcher.tr s')) /\ routed_ok cfg s'.
Proof.
  intros HW Hcr Hok Hrt. unfold Dispatcher.dispatcher_iter.
  destruct (Dispatcher.getByName _ _) as [p|].
  - intros Hf. destruct (forward_routed _ _ _ _ _ HW Hok Hrt Hf) as [-> ?].
    done.
  - destruct (find (Name dp)) as [spec|]; [|by intros [= <-]].
    destruct (create (Name dp) spec) as [err|d] eqn:Hc; [by intros [= <-]|].
    set (s1 := Dispatcher.mkState _ _ _).
    assert (Hok1 : registry_ok (Transceiver.dss (Dispatcher.tr s1))).
    { intros j e Hj. subst s1.
      cbn [Dispatcher.tr Transceiver.dss] in Hj.
      unfold Dispatcher.insert in Hj.
      destruct (decide (j = Id d)) as [->|Hne].
      - rewrite lookup_insert_eq in Hj. injection Hj as <-.
        split; [done|]. by eapply Hcr.
      - rewrite lookup_insert_ne in Hj by done. by apply Hok. }
    assert (Hrt1 : routed_ok cfg s1).
    { intros i c dp0 Hi Hin.
      destruct (Hrt i c dp0 Hi Hin) as (p0 & d0 & Hp0 & Hd0 & Hsh).
      subst s1. cbn [Dispatcher.tr Transceiver.dss]. unfold Dispatcher.insert.
      destruct (decide (p0 = Id d)) as [->|Hne].
      - exists (Id d), d. by rewrite lookup_insert_eq.
      - exists p0, d0. by rewrite lookup_insert_ne. }
    intros Hf. destruct (forward_routed _ _ _ _ _ HW Hok1 Hrt1 Hf) as [-> ?].
    done.
Qed.

(** X26: the dispatcher forwards resolved data points only. However many
    data points it handles, every data point it has put on the worker
    channel [i] carries a pointer to a registered data source whose id is
    [i] modulo [config.Workers], and the registry keeps filing data
    sources under their ids: a worker never receives a point for another
    shard, nor one without its data source. *)
Theorem dispatcher_forwards_only_resolved_points (dsSpec : Type)
    (find : string -> option dsSpec)
    (create : string -> dsSpec -> string + trDataSource)
    (cfg : Config) (dps : list trDataPoint) (s s' : Dispatcher.state) :
  0 < Workers cfg ->
  (forall nm spec d, create nm spec = inr d -> 0 <= Id d <= Int64.max_int) ->
  registry_ok (Transceiver.dss (Dispatcher.tr s)) -> routed_ok cfg s ->
  Dispatcher.dispatcher dsSpec find create cfg dps s = Done s' ->
  registry_ok (Transceiver.dss (Dispatcher.tr s')) /\ routed_ok cfg s'.
Proof.
  intros HW Hcr. revert s.
  induction dps as [|dp dps IH]; intros s Hok Hrt; cbn [Dispatcher.dispatcher].
  - by intros [= <-].
  - destruct (Dispatcher.dispatcher_iter dsSpec find create cfg dp s)
      as [s1| |] eqn:Hiter; [|done..].
    cbn [obind].
    destruct (dispatcher_iter_routed _ _ _ _ _ _ _ HW Hcr Hok Hrt Hiter).
    by apply IH.
Qed.

(** Three data points on a fresh dispatcher with two workers: [a] is
    created with the id 3, [b] with the id 4, the third is for [a]
    again. *)
Lemma dispatcher_forwards_only_resolved_points_witness :
  let cfg := mkConfig 2 0 0 1000000000 "s" in
  let s := Dispatcher.mkState (Transceiver.mkTransceiver ∅ [] [] [])
                              (Dispatcher.make_workerChs cfg) [] in
  let find := fun _ : string => Some tt in
  let create := fun (nm : string) (_ : unit) =>
                  inr (mkDataSource (if decide (nm = "a") then 3 else 4)
                                    nm 0 []) : string + trDataSource in
  let dps := [mkDataPoint "a" 1 5 None; mkDataPoint "b" 2 6 None;
              mkDataPoint "a" 3 7 None] in
  exists s',
    Dispatcher.dispatcher unit find create cfg dps s = Done s'
    /\ registry_ok (Transceiver.dss (Dispatcher.tr s'))
    /\ routed_ok cfg s'
    /\ Dispatcher.workerChs s'
       = [mkChan 1024 [mkDataPoint "b" 2 6 (Some 4)] false [] false;
          mkChan 1024 [mkDataPoint "a" 1 5 (Some 3);
                       mkDataPoint "a" 3 7 (Some 3)] false [] false].
Proof.
  intros cfg s find create dps.
  assert (Hrun : exists s', Dispatcher.dispatcher unit find create cfg dps s
                            = Done s'
                            /\ Dispatcher.workerChs s'
                               = [mkChan 1024 [mkDataPoint "b" 2 6 (Some 4)]
                                         false [] false;
                                  mkChan 1024 [mkDataPoint "a" 1 5 (Some 3);
                                               mkDataPoint "a" 3 7 (Some 3)]
                                         false [] false]).
  { eexists. split; vm_compute; reflexivity. }
  destruct Hrun as (s' & Hrun & Hchs). exists s'. split; [exact Hrun|].
  assert (H : registry_ok (Transceiver.dss (Dispatcher.tr s'))
              /\ routed_ok cfg s').
  { apply (dispatcher_forwards_only_resolved_points unit find create cfg
             dps s s').
    - reflexivity.
    - intros nm spec d [= <-]. cbn [Id]. unfold Int64.max_int.
      destruct (decide (nm = "a")); lia.
    - intros k d Hd. cbn in Hd. by rewrite lookup_empty in Hd.
    - intros i c dp Hi Hin.
      assert (c = make_chan 1024) as ->.
      { destruct i as [|[|i]]; cbn in Hi;
          [by injection Hi as <-|by injection Hi as <-|done]. }
      cbn in Hin. by apply elem_of_nil in Hin.
    - exact Hrun. }
  destruct H as [H1 H2].
  split; [exact H1|]. split; [exact H2|exact Hchs].
Defined.
